(** * err-backend-skype: the Skype backend adapter of errbot (skype.py)

    A shallow embedding of [skype.py].  The adapter sits between two
    libraries that are not part of the repository: the native client
    (Skype4Py) and the bot framework (errbot).  Both are represented by a
    [World]: the state of the native client as the adapter can observe it,
    the heap of framework [Message] objects, and a trace of every method
    call that leaves the adapter.  Adapter code is written in a small
    state-and-exception monad over that world.

    Conventions:
    - reading a property of a native object ([Handle], [Members], [Topic],
      ...) reads the object's current state and cannot fail;
    - a method call on the native client or on the framework ([Join()],
      [MarkAsSeen()], [callback_message(...)], ...) is recorded in the
      trace and returns or raises as the [fault] oracle of the world says;
      what the call does inside the client is the client's business;
    - reading the client's collections ([Friends], [Chats]) is recorded
      too, so that one can tell whether they were consulted;
    - the wrapper objects are immutable and carry their identity; [Message]
      objects are mutable and live on a heap; assigning [None] to the [to]
      or [frm] of a message is refused by the framework's setters;
    - [send_message] records its calls in an outbox of its own and takes
      the markdown converter as a parameter;
    - logging is left out, and so are [change_presence] and
      [prefix_groupchat_reply], which only hand over to the framework. *)

From stdpp Require Import base option strings gmap list fin_maps functions.

Open Scope string_scope.
Open Scope list_scope.
Open Scope nat_scope.

(** ** Exceptions *)

(** The exception classes the file names, plus [OtherError] for any other
    class raised by the native client or the framework. *)
Inductive exn :=
| SkypeError
| RoomDoesNotExistError (fmt room : string)
| ValueError (msg : string)
| AssertionError
| AttributeError (attr : string)
| OtherError (cls : string).

Global Instance exn_eq_dec : EqDecision exn.
Proof. solve_decision. Defined.

(** ** The native client library *)

Module Skype4Py.

(** Chats are mutable native objects: a handle names one, the world holds
    its current properties. *)
Definition chat_id := nat.

Module user.
(** [Skype4Py.user.User], with the properties the adapter reads. *)
Record User := {
  Handle : string;
  FullName : string;
  DisplayName : string;
  ReceivedAuthRequest : string
}.
End user.

Module chat.
(** [Skype4Py.chat.Chat]: the properties of one chat. *)
Record Chat := {
  Name : string;
  Topic : string;
  Members : list user.User;
  Status : string;
  Type_ : string
}.

Definition set_Topic (t : string) (c : Chat) : Chat :=
  {| Name := Name c; Topic := t; Members := Members c;
     Status := Status c; Type_ := Type_ c |}.

Definition set_Type_ (t : string) (c : Chat) : Chat :=
  {| Name := Name c; Topic := Topic c; Members := Members c;
     Status := Status c; Type_ := t |}.
End chat.

Module chatmessage.
(** The object the client passes to [OnMessageStatus].  Python checks
    its class at run time; [isinstance_ChatMessage] is the outcome of
    [isinstance(skype_msg, Skype4Py.chat.ChatMessage)]. *)
Record ChatMessage := {
  isinstance_ChatMessage : bool;
  Id : nat;
  Status : string;
  Type_ : string;
  Body : string;
  Sender : user.User;
  Chat : chat_id
}.

Definition set_Type_ (t : string) (m : ChatMessage) : ChatMessage :=
  {| isinstance_ChatMessage := isinstance_ChatMessage m; Id := Id m;
     Status := Status m; Type_ := t; Body := Body m;
     Sender := Sender m; Chat := Chat m |}.
End chatmessage.

End Skype4Py.

Import Skype4Py.
Import Skype4Py.user.

Global Instance User_eq_dec : EqDecision User.
Proof. solve_decision. Defined.

(** ** Identifier adapters *)

(** What the [_bot] attribute of a wrapper refers to: the backend, or
    another wrapper object (named by its identity). *)
Inductive bot_ref :=
| TheBackend
| TheObject (oid : nat).

Global Instance bot_ref_eq_dec : EqDecision bot_ref.
Proof. solve_decision. Defined.

(** Wrapper objects are never mutated after construction, so they are
    values.  [oid] is Python's [id(obj)]: creating an object first takes a
    fresh identity and then runs [__init__] on it. *)
Module SkypeUser.
Record t := {
  oid : nat;
  _user : User;
  _bot : bot_ref
}.

(** The [isinstance] assertion holds by typing: [user] is a [User]. *)
Definition __init__ (self : nat) (user : User) (bot : bot_ref) : t :=
  {| oid := self; _user := user; _bot := bot |}.

Definition __unicode__ (self : t) : string := Handle (_user self).
Definition __str__ := __unicode__.
Definition user (self : t) : User := _user self.
Definition fullname (self : t) : string := FullName (_user self).
Definition nick (self : t) : string := Handle (_user self).
Definition handle := nick.
Definition aclattr := nick.
Definition person := nick.
Definition client (self : t) : option string := None.
Definition displayname (self : t) : string := DisplayName (_user self).
End SkypeUser.

(** The object layout of [SkypeChatroom]; its methods act on the world and
    are defined in [SkypeChatroomMethods] below. *)
Module SkypeChatroom.
Record t := {
  oid : nat;
  _chat : chat_id;
  _bot : bot_ref
}.

(** The [isinstance] assertion holds by typing: [chat] names a chat. *)
Definition __init__ (self : nat) (chat : chat_id) (bot : bot_ref) : t :=
  {| oid := self; _chat := chat; _bot := bot |}.

Definition chat (self : t) : chat_id := _chat self.
Definition person (self : t) : option string := None.
End SkypeChatroom.

Module SkypeChatroomOccupant.
(** A subclass of [SkypeUser]: the inherited part and the room. *)
Record t := {
  base : SkypeUser.t;
  _room : SkypeChatroom.t
}.

(** [super().__init__(user, bot=self)]: the [bot] argument is dropped and
    the occupant itself is stored in its place. *)
Definition __init__ (self : nat) (user : User) (room : SkypeChatroom.t)
    (bot : bot_ref) : t :=
  {| base := SkypeUser.__init__ self user (TheObject self);
     _room := room |}.

Definition room (self : t) : SkypeChatroom.t := _room self.

(** Inherited from [SkypeUser]. *)
Definition __str__ (self : t) : string := SkypeUser.__str__ (base self).
Definition user (self : t) : User := SkypeUser.user (base self).
Definition fullname (self : t) : string := SkypeUser.fullname (base self).
Definition nick (self : t) : string := SkypeUser.nick (base self).
Definition handle := nick.
Definition aclattr := nick.
Definition person := nick.
Definition displayname (self : t) : string :=
  SkypeUser.displayname (base self).
End SkypeChatroomOccupant.

Global Instance SkypeUser_eq_dec : EqDecision SkypeUser.t.
Proof. solve_decision. Defined.
Global Instance SkypeChatroom_eq_dec : EqDecision SkypeChatroom.t.
Proof. solve_decision. Defined.
Global Instance SkypeChatroomOccupant_eq_dec :
  EqDecision SkypeChatroomOccupant.t.
Proof. solve_decision. Defined.

(** The objects the framework uses to address a message. *)
Inductive Identifier :=
| IdUser (u : SkypeUser.t)
| IdOccupant (o : SkypeChatroomOccupant.t)
| IdRoom (r : SkypeChatroom.t).

Global Instance Identifier_eq_dec : EqDecision Identifier.
Proof. solve_decision. Defined.

(** ** Framework messages *)

(** [errbot.backends.base.Message]: a mutable object; [None] is Python's
    [None]. *)
Record Message := {
  body : option string;
  type_ : string;
  frm : option Identifier;
  to : option Identifier
}.

Definition loc := nat.

(** ** The world *)

(** Method calls that leave the adapter (into the native client or into the
    framework), and the queries of the client's collections. *)
Inductive event :=
| Attach
| connect_callback
| GetFriends
| GetChats
| SearchForUsers (text : string)
| Join (c : chat_id)
| Leave (c : chat_id)
| Disband (c : chat_id)
| AddMembers (c : chat_id) (users : list string)
| MarkAsSeen (msg : nat)
| SetBuddyStatusPendingAuthorization (u : User)
| callback_message (msg : loc).

Global Instance event_eq_dec : EqDecision event.
Proof. solve_decision. Defined.

Record World := {
  (* the native client *)
  CurrentUser : User;
  Friends : list User;
  Chats : list chat_id;
  chat_state : chat_id → chat.Chat;
  directory : string → list User;
  UsersWaitingAuthorization : list User;
  (* which outgoing method calls raise, and what *)
  fault : event → option exn;
  (* the Python side *)
  heap : gmap loc Message;
  next_oid : nat;
  cache : gmap (nat * string) Identifier;
  trace : list event
}.

Definition set_chat_state (f : (chat_id → chat.Chat) → chat_id → chat.Chat)
    (w : World) : World :=
  {| CurrentUser := CurrentUser w; Friends := Friends w; Chats := Chats w;
     chat_state := f (chat_state w); directory := directory w;
     UsersWaitingAuthorization := UsersWaitingAuthorization w;
     fault := fault w; heap := heap w; next_oid := next_oid w;
     cache := cache w; trace := trace w |}.

Definition set_heap (f : gmap loc Message → gmap loc Message)
    (w : World) : World :=
  {| CurrentUser := CurrentUser w; Friends := Friends w; Chats := Chats w;
     chat_state := chat_state w; directory := directory w;
     UsersWaitingAuthorization := UsersWaitingAuthorization w;
     fault := fault w; heap := f (heap w); next_oid := next_oid w;
     cache := cache w; trace := trace w |}.

Definition set_next_oid (f : nat → nat) (w : World) : World :=
  {| CurrentUser := CurrentUser w; Friends := Friends w; Chats := Chats w;
     chat_state := chat_state w; directory := directory w;
     UsersWaitingAuthorization := UsersWaitingAuthorization w;
     fault := fault w; heap := heap w; next_oid := f (next_oid w);
     cache := cache w; trace := trace w |}.

Definition set_cache
    (f : gmap (nat * string) Identifier → gmap (nat * string) Identifier)
    (w : World) : World :=
  {| CurrentUser := CurrentUser w; Friends := Friends w; Chats := Chats w;
     chat_state := chat_state w; directory := directory w;
     UsersWaitingAuthorization := UsersWaitingAuthorization w;
     fault := fault w; heap := heap w; next_oid := next_oid w;
     cache := f (cache w); trace := trace w |}.

Definition set_trace (f : list event → list event) (w : World) : World :=
  {| CurrentUser := CurrentUser w; Friends := Friends w; Chats := Chats w;
     chat_state := chat_state w; directory := directory w;
     UsersWaitingAuthorization := UsersWaitingAuthorization w;
     fault := fault w; heap := heap w; next_oid := next_oid w;
     cache := cache w; trace := f (trace w) |}.

(** ** The monad: state passing with exceptions *)

Inductive outcome (A : Type) :=
| Ret (a : A)
| Raise (e : exn).
Arguments Ret {A} a.
Arguments Raise {A} e.

Definition M (A : Type) : Type := World → outcome A * World.

Definition ret {A} (a : A) : M A := λ w, (Ret a, w).

Definition raise {A} (e : exn) : M A := λ w, (Raise e, w).

Definition bind {A B} (c : M A) (k : A → M B) : M B :=
  λ w, match c w with
       | (Ret a, w') => k a w'
       | (Raise e, w') => (Raise e, w')
       end.

Notation "x <- c1 ;; c2" := (bind c1 (λ x, c2))
  (at level 100, c1 at next level, right associativity).
Notation "c1 ;; c2" := (bind c1 (λ _, c2))
  (at level 100, right associativity).

Definition gets {A} (f : World → A) : M A := λ w, (Ret (f w), w).

Definition modify (f : World → World) : M unit := λ w, (Ret tt, f w).

(** [try: body  except <classes accepted by handles>: handler]. *)
Definition try_except {A} (body : M A) (handles : exn → bool)
    (handler : M A) : M A :=
  λ w, match body w with
       | (Ret a, w') => (Ret a, w')
       | (Raise e, w') => if handles e then handler w' else (Raise e, w')
       end.

(** [assert b]. *)
Definition assert (b : bool) : M unit :=
  if b then ret tt else raise AssertionError.

(** Appending an event to the trace. *)
Definition record (ev : event) (w : World) : World :=
  set_trace (λ t, t ++ [ev]) w.

(** A method call on the native client or the framework: it is recorded,
    and it returns or raises as the callee decides. *)
Definition call (ev : event) : M unit :=
  λ w, match fault w ev with
       | None => (Ret tt, record ev w)
       | Some e => (Raise e, record ev w)
       end.

(** Reading a collection property of the client: the query is recorded
    and answered from the client's state. *)
Definition query {A} (ev : event) (f : World → A) : M A :=
  λ w, (Ret (f w), record ev w).

(** [Class(args)]: a fresh identity, then [__init__]. *)
Definition new {A} (init : nat → A) : M A :=
  λ w, (Ret (init (next_oid w)), set_next_oid S w).

Fixpoint mapM {A B} (f : A → M B) (l : list A) : M (list B) :=
  match l with
  | [] => ret []
  | x :: l' => y <- f x ;; ys <- mapM f l' ;; ret (y :: ys)
  end.

(** [Message(body=..., type_=..., frm=..., to=...)]: a new object on the
    heap. *)
Definition new_Message (body : option string) (type_ : string)
    (frm to : option Identifier) : M loc :=
  λ w, let l := fresh (dom (heap w)) in
       (Ret l, set_heap (insert l {| body := body; type_ := type_;
                                     frm := frm; to := to |}) w).

(** [isinstance(mess, Message)]: the reference names a [Message]. *)
Definition isinstance_Message (mess : loc) : M bool :=
  gets (λ w, bool_decide (is_Some (heap w !! mess))).

Definition getattr_Message {A} (mess : loc) (attr : string)
    (field : Message → A) : M A :=
  λ w, match heap w !! mess with
       | Some m => (Ret (field m), w)
       | None => (Raise (AttributeError attr), w)
       end.

Definition setattr_Message (mess : loc) (upd : Message → Message) : M unit :=
  modify (set_heap (alter upd mess)).

Definition set_body (v : option string) (m : Message) : Message :=
  {| body := v; type_ := type_ m; frm := frm m; to := to m |}.
Definition set_type (v : string) (m : Message) : Message :=
  {| body := body m; type_ := v; frm := frm m; to := to m |}.
Definition set_frm (v : option Identifier) (m : Message) : Message :=
  {| body := body m; type_ := type_ m; frm := v; to := to m |}.
Definition set_to (v : option Identifier) (m : Message) : Message :=
  {| body := body m; type_ := type_ m; frm := frm m; to := v |}.

(** [hasattr(v, 'person')]: every identifier adapter has a [person]
    attribute ([SkypeChatroom] sets [person = None] to have one); [None]
    has not. *)
Definition hasattr_person (v : option Identifier) : bool :=
  match v with
  | Some _ => true
  | None => false
  end.

(** [message.to = v] and [message.frm = v].  The framework's setters of
    these two attributes refuse a value without a [person] attribute: they
    raise [Exception] and leave the message as it is.  The setters of
    [body] and [type] store what they are given. *)
Definition setattr_Message_to (mess : loc) (v : option Identifier)
    : M unit :=
  if hasattr_person v then setattr_Message mess (set_to v)
  else raise (OtherError "Exception").

Definition setattr_Message_frm (mess : loc) (v : option Identifier)
    : M unit :=
  if hasattr_person v then setattr_Message mess (set_frm v)
  else raise (OtherError "Exception").

(** ** The backend adapter *)

Module SkypeBackend.

(** The attributes of the backend object; [id_] is [id(self)], which
    [__hash__] returns.  [bot_identifier] is [None] until [serve_forever]
    assigns it. *)
Record t := {
  id_ : nat;
  bot_config : gmap string bool;
  bot_identifier : option Identifier
}.

Definition SKYPE_ACCEPT_CONTACT_REQUESTS : string :=
  "SKYPE_ACCEPT_CONTACT_REQUESTS".

(** The client handle, the two event registrations and the markdown
    converter carry no state of their own here. *)
Definition __init__ (self : nat) (config : gmap string bool) : t :=
  {| id_ := self;
     bot_config :=
       <[SKYPE_ACCEPT_CONTACT_REQUESTS :=
           default true (config !! SKYPE_ACCEPT_CONTACT_REQUESTS)]> config;
     bot_identifier := None |}.

Definition __hash__ (self : t) : nat := id_ self.

Definition mode (self : t) : string := "skype".

(** Reading an attribute that was never assigned raises. *)
Definition get_bot_identifier (self : t) : M Identifier :=
  match bot_identifier self with
  | Some i => ret i
  | None => raise (AttributeError "bot_identifier")
  end.

Definition get_bot_config (self : t) (attr : string) : M bool :=
  match bot_config self !! attr with
  | Some b => ret b
  | None => raise (AttributeError attr)
  end.

Definition _process_contact_request (self : t) (user : User) : M unit :=
  flag <- get_bot_config self SKYPE_ACCEPT_CONTACT_REQUESTS ;;
  if flag : bool then
    call (SetBuddyStatusPendingAuthorization user)
  else
    ret tt.

Definition _contact_request_event_handler (self : t) (user : User)
    : M unit :=
  _process_contact_request self user.

(** [serve_forever] up to its idle loop ([while True: time.sleep(1000)]),
    which is not modelled; the result is the backend with
    [bot_identifier] assigned. *)
Definition serve_forever_startup (self : t) : M t :=
  call Attach ;;
  call connect_callback ;;
  current <- gets CurrentUser ;;
  me <- new (λ o, SkypeUser.__init__ o current TheBackend) ;;
  let self := {| id_ := id_ self; bot_config := bot_config self;
                 bot_identifier := Some (IdUser me) |} in
  waiting <- gets UsersWaitingAuthorization ;;
  mapM (_process_contact_request self) waiting ;;
  ret self.

Definition _make_message (self : t) (skype_msg : chatmessage.ChatMessage)
    : M loc :=
  assert (chatmessage.isinstance_ChatMessage skype_msg) ;;
  members <- gets (λ w,
    chat.Members (chat_state w (chatmessage.Chat skype_msg))) ;;
  let is_groupchat := bool_decide (2 < length members) in
  if is_groupchat then
    skypechat <- new (λ o,
      SkypeChatroom.__init__ o (chatmessage.Chat skype_msg) TheBackend) ;;
    sender <- new (λ o,
      SkypeChatroomOccupant.__init__ o (chatmessage.Sender skype_msg)
        skypechat TheBackend) ;;
    new_Message (Some (chatmessage.Body skype_msg)) "groupchat"
      (Some (IdOccupant sender)) (Some (IdRoom skypechat))
  else
    sender <- new (λ o,
      SkypeUser.__init__ o (chatmessage.Sender skype_msg) TheBackend) ;;
    me <- get_bot_identifier self ;;
    new_Message (Some (chatmessage.Body skype_msg)) "chat"
      (Some (IdUser sender)) (Some me).

Definition is_SkypeError (e : exn) : bool :=
  match e with SkypeError => true | _ => false end.

(** The [status] argument is not used; the message's own [Status] is. *)
Definition _message_event_handler (self : t)
    (skype_msg : chatmessage.ChatMessage) (status : string) : M unit :=
  (if decide (chatmessage.Status skype_msg = "RECEIVED") then
     msg <- _make_message self skype_msg ;;
     call (callback_message msg)
   else
     ret tt) ;;
  try_except (call (MarkAsSeen (chatmessage.Id skype_msg)))
    is_SkypeError (ret tt).

Definition build_reply (self : t) (mess : loc) (text : option string)
    (private : bool) : M loc :=
  ok <- isinstance_Message mess ;;
  assert ok ;;
  let message := mess in
  sender <- getattr_Message mess "frm" frm ;;
  setattr_Message_to message sender ;;
  me <- get_bot_identifier self ;;
  setattr_Message_frm message (Some me) ;;
  setattr_Message message (set_body text) ;;
  (if private then setattr_Message message (set_type "chat") else ret tt) ;;
  ret message.

Definition is_RoomDoesNotExistError (e : exn) : bool :=
  match e with RoomDoesNotExistError _ _ => true | _ => false end.

(** [len(chats) == 1] and [chats[0]] are the one-element pattern. *)
Definition query_room (self : t) (room : string) : M SkypeChatroom.t :=
  all <- query GetChats Chats ;;
  state <- gets chat_state ;;
  let chats := filter (λ c, chat.Name (state c) = room) all in
  match chats with
  | [c] => new (λ o, SkypeChatroom.__init__ o c TheBackend)
  | _ => raise (RoomDoesNotExistError "Couldn't find a room matching %s"
                  room)
  end.

(** The function under the [lru_cache] decorator.  As in [query_room],
    [len(matches) == 1] with [matches[0]] is the one-element pattern; the
    [return] inside [try] is the [Some] case of [found]. *)
Definition build_identifier_uncached (self : t)
    (text_representation : string) : M Identifier :=
  friends <- query GetFriends Friends ;;
  match filter (λ f, Handle f = text_representation) friends with
  | [f] => u <- new (λ o, SkypeUser.__init__ o f TheBackend) ;;
           ret (IdUser u)
  | _ =>
    found <- try_except
               (r <- query_room self text_representation ;;
                ret (Some (IdRoom r)))
               is_RoomDoesNotExistError
               (ret None) ;;
    match found with
    | Some r => ret r
    | None =>
      call (SearchForUsers text_representation) ;;
      users <- gets (λ w, directory w text_representation) ;;
      match filter (λ u, Handle u = text_representation) users with
      | [u0] => u <- new (λ o, SkypeUser.__init__ o u0 TheBackend) ;;
                ret (IdUser u)
      | _ => raise (ValueError
          "Unable to build an identifier from %s. Maybe the user doesn't exist or there's no chat with that identifier")
      end
    end
  end.

(** [@lru_cache(maxsize=None)]: results are stored under the arguments
    [(self, text_representation)], [self] hashed by [__hash__]; nothing
    is ever evicted, and a call that raises stores nothing. *)
Definition build_identifier (self : t) (text_representation : string)
    : M Identifier :=
  λ w, let key := (__hash__ self, text_representation) in
       match cache w !! key with
       | Some r => (Ret r, w)
       | None =>
         match build_identifier_uncached self text_representation w with
         | (Ret r, w') => (Ret r, set_cache (insert key r) w')
         | (Raise e, w') => (Raise e, w')
         end
       end.

Definition rooms (self : t) : M (list SkypeChatroom.t) :=
  all <- query GetChats Chats ;;
  mapM (λ c, new (λ o, SkypeChatroom.__init__ o c TheBackend)) all.

End SkypeBackend.

(** ** The room adapter *)

Module SkypeChatroomMethods.
Import SkypeChatroom.

Definition __unicode__ (self : t) : M string :=
  gets (λ w, chat.Name (chat_state w (_chat self))).

Definition __str__ := __unicode__.

Definition join (self : t) (username password : option string) : M unit :=
  call (Join (_chat self)).

Definition leave (self : t) (reason : option string) : M unit :=
  call (Leave (_chat self)).

Definition create (self : t) : M unit := ret tt.

Definition destroy (self : t) : M unit :=
  call (Disband (_chat self)).

Definition exists_ (self : t) : M bool := ret true.

Definition joined (self : t) : M bool :=
  gets (λ w, bool_decide
               (chat.Status (chat_state w (_chat self)) ≠ "UNSUBSCRIBED")).

Definition topic (self : t) : M string :=
  gets (λ w, chat.Topic (chat_state w (_chat self))).

(** [self._chat.Topic = topic]. *)
Definition topic_setter (self : t) (topic : string) : M unit :=
  modify (set_chat_state
            (λ st, <[_chat self := chat.set_Topic topic (st (_chat self))]>
                     st)).

Definition occupants (self : t) : M (list SkypeChatroomOccupant.t) :=
  members <- gets (λ w, chat.Members (chat_state w (_chat self))) ;;
  mapM (λ member,
          new (λ o, SkypeChatroomOccupant.__init__ o member self
                      (_bot self)))
       members.

(** [str(identifier)]. *)
Definition str (i : Identifier) : M string :=
  match i with
  | IdUser u => ret (SkypeUser.__str__ u)
  | IdOccupant o => ret (SkypeChatroomOccupant.__str__ o)
  | IdRoom r => __str__ r
  end.

(** [bot] is the backend object that [self._bot] refers to. *)
Definition invite (bot : SkypeBackend.t) (self : t) (args : list string)
    : M unit :=
  users <- mapM (λ user,
                   i <- SkypeBackend.build_identifier bot user ;; str i)
                args ;;
  call (AddMembers (_chat self) users).

(** What a caller can do with a room object. *)
Inductive operation :=
| do_join (username password : option string)
| do_leave (reason : option string)
| do_create
| do_destroy
| get_exists
| get_joined
| get_topic
| set_topic (topic : string)
| get_occupants
| do_invite (args : list string).

Definition discard {A} (c : M A) : M unit := _ <- c ;; ret tt.

Definition perform (bot : SkypeBackend.t) (self : t) (op : operation)
    : M unit :=
  match op with
  | do_join u p => join self u p
  | do_leave r => leave self r
  | do_create => create self
  | do_destroy => destroy self
  | get_exists => discard (exists_ self)
  | get_joined => discard (joined self)
  | get_topic => discard (topic self)
  | set_topic t => topic_setter self t
  | get_occupants => discard (occupants self)
  | do_invite args => invite bot self args
  end.

(** The world after a sequence of operations; an operation that raises
    does not stop the caller from going on. *)
Definition after (bot : SkypeBackend.t) (self : t) (ops : list operation)
    (w : World) : World :=
  foldl (λ w op, (perform bot self op w).2) w ops.

End SkypeChatroomMethods.

(** ** Sending *)

(** [send_message] makes calls of its own kind: the framework's
    [send_message], the client's [SendMessage] and a chat's [SendMessage].
    They are recorded in an outbox beside the world, with an oracle of
    their own for the calls that raise. *)
Module SkypeBackendSending.

Inductive sending :=
| super_send_message (mess : loc)
| skype_SendMessage (handle body : string)
| chat_SendMessage (c : chat_id) (body : string).

Global Instance sending_eq_dec : EqDecision sending.
Proof. solve_decision. Defined.

Record Wire := {
  world : World;
  outbox : list sending;
  send_fault : sending → option exn
}.

Definition S (A : Type) : Type := Wire → outcome A * Wire.

Definition ret_S {A} (a : A) : S A := λ s, (Ret a, s).

Definition bind_S {A B} (c : S A) (k : A → S B) : S B :=
  λ s, match c s with
       | (Ret a, s') => k a s'
       | (Raise e, s') => (Raise e, s')
       end.

(** A computation on the world alone. *)
Definition lift {A} (c : M A) : S A :=
  λ s, let (o, w') := c (world s) in
       (o, {| world := w'; outbox := outbox s; send_fault := send_fault s |}).

(** The outcome of an attribute access or of a helper. *)
Definition of_outcome {A} (o : outcome A) : S A := λ s, (o, s).

(** One of the three outgoing calls. *)
Definition send (c : sending) : S unit :=
  λ s, let s' := {| world := world s; outbox := outbox s ++ [c];
                    send_fault := send_fault s |} in
       match send_fault s c with
       | None => (Ret tt, s')
       | Some e => (Raise e, s')
       end.

(** [mess.to.handle]: users and occupants have a handle; a room and
    [None] have not. *)
Definition getattr_handle (to : option Identifier) : outcome string :=
  match to with
  | Some (IdUser u) => Ret (SkypeUser.handle u)
  | Some (IdOccupant o) => Ret (SkypeChatroomOccupant.handle o)
  | Some (IdRoom _) | None => Raise (AttributeError "handle")
  end.

(** [hasattr(mess.to, 'room')]: only an occupant has a room. *)
Definition hasattr_room (to : option Identifier) : bool :=
  match to with
  | Some (IdOccupant _) => true
  | _ => false
  end.

(** [mess.to.room.chat]. *)
Definition getattr_room_chat (to : option Identifier) : outcome chat_id :=
  match to with
  | Some (IdOccupant o) =>
      Ret (SkypeChatroom.chat (SkypeChatroomOccupant.room o))
  | _ => Raise (AttributeError "room")
  end.

(** [mess.to.chat]: only a room has a chat. *)
Definition getattr_chat (to : option Identifier) : outcome chat_id :=
  match to with
  | Some (IdRoom r) => Ret (SkypeChatroom.chat r)
  | _ => Raise (AttributeError "chat")
  end.

Section send_message.

(** [self.md_converter.convert], the framework's markdown-to-text
    rendering, applied to the body of a message. *)
Variable convert : option string → outcome string.

Definition send_message (self : SkypeBackend.t) (mess : loc) : S unit :=
  bind_S (send (super_send_message mess)) (λ _,
  bind_S (lift (getattr_Message mess "body" body)) (λ b,
  bind_S (of_outcome (convert b)) (λ body,
  bind_S (lift (getattr_Message mess "type" type_)) (λ ty,
  if decide (ty = "chat") then
    bind_S (lift (getattr_Message mess "to" to)) (λ to_,
    bind_S (of_outcome (getattr_handle to_)) (λ handle,
    send (skype_SendMessage handle body)))
  else
    bind_S (lift (getattr_Message mess "to" to)) (λ to_,
    if hasattr_room to_ then
      bind_S (of_outcome (getattr_room_chat to_)) (λ c,
      send (chat_SendMessage c body))
    else
      bind_S (of_outcome (getattr_chat to_)) (λ c,
      send (chat_SendMessage c body))))))).

End send_message.

End SkypeBackendSending.

(** * Vocabulary of the properties *)

Section vocabulary.
Import SkypeBackend.

(** The events recorded between two worlds of one run. *)
Definition emitted (w w' : World) : list event :=
  drop (length (trace w)) (trace w').

(** A computation only ever adds to the trace. *)
Definition grows {A} (c : M A) : Prop :=
  ∀ w, trace w `prefix_of` trace (c w).2.

(** Chat [c] is the only entry of the client's chat list named [room]. *)
Definition only_chat_named (w : World) (room : string) (c : chat_id)
    : Prop :=
  ∃ l1 l2, Chats w = l1 ++ c :: l2
           ∧ chat.Name (chat_state w c) = room
           ∧ Forall (λ c', chat.Name (chat_state w c') ≠ room) (l1 ++ l2).

Definition no_such_room (room : string) : exn :=
  RoomDoesNotExistError "Couldn't find a room matching %s" room.

(** The message a reply turns [m0] into. *)
Definition reply_to (m0 : Message) (me : Identifier)
    (text : option string) (private : bool) : Message :=
  {| body := text;
     type_ := if private then "chat" else type_ m0;
     frm := Some me;
     to := frm m0 |}.

(** The members of the chat a native message belongs to. *)
Definition chat_members (w : World) (skype_msg : chatmessage.ChatMessage)
    : list User :=
  chat.Members (chat_state w (chatmessage.Chat skype_msg)).

(** The two messages [_make_message] can build. *)
Definition groupchat_message (w : World)
    (skype_msg : chatmessage.ChatMessage) : Message :=
  let skypechat :=
    SkypeChatroom.__init__ (next_oid w) (chatmessage.Chat skype_msg)
      TheBackend in
  {| body := Some (chatmessage.Body skype_msg);
     type_ := "groupchat";
     frm := Some (IdOccupant
              (SkypeChatroomOccupant.__init__ (S (next_oid w))
                 (chatmessage.Sender skype_msg) skypechat TheBackend));
     to := Some (IdRoom skypechat) |}.

Definition chat_message (w : World) (skype_msg : chatmessage.ChatMessage)
    (me : Identifier) : Message :=
  {| body := Some (chatmessage.Body skype_msg);
     type_ := "chat";
     frm := Some (IdUser
              (SkypeUser.__init__ (next_oid w)
                 (chatmessage.Sender skype_msg) TheBackend));
     to := Some me |}.

(** The same world, with the [Type] property of a chat changed. *)
Definition with_chat_Type (c : chat_id) (ty : string) (w : World) : World :=
  set_chat_state (λ st, <[c := chat.set_Type_ ty (st c)]> st) w.

(** The last statement of the handler:
    [try: skype_msg.MarkAsSeen()  except Skype4Py.SkypeError: pass]. *)
Definition mark_as_seen (i : nat) : M unit :=
  try_except (call (MarkAsSeen i)) is_SkypeError (ret tt).

(** The handler gets as far as the call to [MarkAsSeen], in world [w1]:
    either the message was not a received one, or it was converted and
    the callback returned. *)
Definition reaches_MarkAsSeen (self : t)
    (skype_msg : chatmessage.ChatMessage) (w w1 : World) : Prop :=
  (chatmessage.Status skype_msg ≠ "RECEIVED" ∧ w1 = w)
  ∨ (chatmessage.Status skype_msg = "RECEIVED"
     ∧ ∃ l w0, _make_message self skype_msg w = (Ret l, w0)
               ∧ fault w (callback_message l) = None
               ∧ w1 = record (callback_message l) w0).

(** What can happen between two calls: another lookup, for any argument,
    or anything at all that leaves the cache alone (the client's friends,
    chats and directory may change, other operations may run). *)
Definition between_calls (w w' : World) : Prop :=
  (∃ self text, w' = (build_identifier self text w).2)
  ∨ cache w' = cache w.

End vocabulary.

(** * A small client *)

Section scenario.
Import SkypeBackend.

Definition alice : User :=
  {| Handle := "alice"; FullName := "Alice Archer"; DisplayName := "Ali";
     ReceivedAuthRequest := "" |}.
Definition bob : User :=
  {| Handle := "bob"; FullName := "Bob Baker"; DisplayName := "Bobby";
     ReceivedAuthRequest := "" |}.
Definition carol : User :=
  {| Handle := "carol"; FullName := "Carol Cook"; DisplayName := "Caz";
     ReceivedAuthRequest := "please add me" |}.
Definition errbot_user : User :=
  {| Handle := "errbot"; FullName := "Err Bot"; DisplayName := "Err";
     ReceivedAuthRequest := "" |}.

(** Chat 1 is a dialogue, chats 2 and 3 are both named [team]. *)
Definition scenario_chats (c : chat_id) : chat.Chat :=
  match c with
  | 1 => {| chat.Name := "#alice/$errbot"; chat.Topic := "";
            chat.Members := [alice; errbot_user];
            chat.Status := "DIALOG"; chat.Type_ := "DIALOG" |}
  | 2 => {| chat.Name := "team"; chat.Topic := "standup";
            chat.Members := [alice; bob; errbot_user];
            chat.Status := "MULTI_SUBSCRIBED"; chat.Type_ := "MULTICHAT" |}
  | 3 => {| chat.Name := "team"; chat.Topic := "";
            chat.Members := [bob; errbot_user];
            chat.Status := "UNSUBSCRIBED"; chat.Type_ := "MULTICHAT" |}
  | _ => {| chat.Name := ""; chat.Topic := ""; chat.Members := [];
            chat.Status := ""; chat.Type_ := "" |}
  end.

Definition scenario (friends : list User) (chats : list chat_id)
    (faults : event → option exn) : World :=
  {| CurrentUser := errbot_user; Friends := friends; Chats := chats;
     chat_state := scenario_chats;
     directory := λ text, if decide (text = "carol") then [carol] else [];
     UsersWaitingAuthorization := [carol];
     fault := faults;
     heap := ∅; next_oid := 1; cache := ∅; trace := [] |}.

Definition no_faults : event → option exn := λ _, None.

Definition calm : World := scenario [alice; bob] [1; 2] no_faults.

Definition me : Identifier :=
  IdUser (SkypeUser.__init__ 0 errbot_user TheBackend).

(** The backend once [serve_forever] has set its identifier. *)
Definition the_bot : t :=
  {| id_ := 100;
     bot_config := bot_config (__init__ 100 ∅);
     bot_identifier := Some me |}.

Definition said (status : string) (c : chat_id) : chatmessage.ChatMessage :=
  {| chatmessage.isinstance_ChatMessage := true; chatmessage.Id := 7;
     chatmessage.Status := status; chatmessage.Type_ := "SAID";
     chatmessage.Body := "!help"; chatmessage.Sender := alice;
     chatmessage.Chat := c |}.

(** An object of another class that reaches the handler. *)
Definition not_a_chat_message : chatmessage.ChatMessage :=
  {| chatmessage.isinstance_ChatMessage := false; chatmessage.Id := 8;
     chatmessage.Status := "RECEIVED"; chatmessage.Type_ := "";
     chatmessage.Body := ""; chatmessage.Sender := alice;
     chatmessage.Chat := 1 |}.

Definition MarkAsSeen_raises (e : exn) : event → option exn :=
  λ ev, match ev with MarkAsSeen _ => Some e | _ => None end.

Definition callback_raises (e : exn) : event → option exn :=
  λ ev, match ev with callback_message _ => Some e | _ => None end.

(** A group message of [bob] waiting on the heap at address 3. *)
Definition waiting_message : Message :=
  {| body := Some "!status"; type_ := "groupchat";
     frm := Some (IdUser (SkypeUser.__init__ 9 bob TheBackend));
     to := Some (IdRoom (SkypeChatroom.__init__ 8 2 TheBackend)) |}.

Definition with_waiting_message : World :=
  set_heap (insert 3 waiting_message) calm.

(** The world after a first lookup of [alice], and a later world in which
    she is no longer a friend and no chat is left. *)
Definition looked_up : World := (build_identifier the_bot "alice" calm).2.

Definition unfriended : World :=
  set_cache (λ _, cache looked_up) (scenario [] [] no_faults).

Definition alice_identifier : Identifier :=
  IdUser (SkypeUser.__init__ 1 alice TheBackend).

(** A second backend object. *)
Definition another_bot : t :=
  {| id_ := 101;
     bot_config := bot_config (__init__ 101 ∅);
     bot_identifier := Some me |}.

(** A converter that passes text through and has nothing to say about
    [None]. *)
Definition plain (b : option string) : outcome string :=
  match b with
  | Some text => Ret text
  | None => Raise (OtherError "TypeError")
  end.

(** A private note to [bob], and the same note mistaken for a group
    message. *)
Definition note_to_bob : Message :=
  {| body := Some "hello"; type_ := "chat"; frm := Some me;
     to := Some (IdUser (SkypeUser.__init__ 9 bob TheBackend)) |}.



Definition holding (m : Message) : World := set_heap (insert 3 m) calm.

(** A message as the framework makes it from a body alone: nobody sent
    it. *)
Definition unsent_note : Message :=
  {| body := Some "hello"; type_ := "chat"; frm := None; to := None |}.

(** The backend as [__init__] leaves it, before [serve_forever]. *)
Definition unstarted_bot : t := __init__ 100 ∅.

End scenario.

(** * Further vocabulary *)

Section further_vocabulary.
Import SkypeBackend.

(** [x] is the one and only entry of [l] that satisfies [P]. *)
Definition only_one {A} (P : A → Prop) (l : list A) (x : A) : Prop :=
  ∃ l1 l2, l = l1 ++ x :: l2 ∧ P x ∧ Forall (λ y, ¬ P y) (l1 ++ l2).

(** The one friend, and the one hit of a directory search, with a handle. *)
Definition only_friend (w : World) (text : string) (f : User) : Prop :=
  only_one (λ f, Handle f = text) (Friends w) f.

Definition only_hit (w : World) (text : string) (u : User) : Prop :=
  only_one (λ u, Handle u = text) (directory w text) u.

Definition no_identifier : exn :=
  ValueError
    "Unable to build an identifier from %s. Maybe the user doesn't exist or there's no chat with that identifier".

(** [str(i)] is [text] in world [w]. *)
Definition reads_as (w : World) (i : Identifier) (text : string) : Prop :=
  (SkypeChatroomMethods.str i w).1 = Ret text.

(** Every memoized identifier still reads as the text it is stored under. *)
Definition cache_sound (w : World) : Prop :=
  ∀ k text r, cache w !! (k, text) = Some r → reads_as w r text.

(** A computation keeps an invariant of the world. *)
Definition keeps {A} (I : World → Prop) (c : M A) : Prop :=
  ∀ w, I w → I (c w).2.

(** A computation records only events of one kind. *)
Definition emits {A} (P : event → Prop) (c : M A) : Prop :=
  ∀ w, ∃ evs, trace (c w).2 = trace w ++ evs ∧ Forall P evs.

(** The queries a lookup may make. *)
Definition is_lookup (ev : event) : Prop :=
  match ev with
  | GetFriends | GetChats | SearchForUsers _ => True
  | _ => False
  end.

(** The identities of the wrappers in a list. *)
Definition room_oids (rs : list SkypeChatroom.t) : list nat :=
  SkypeChatroom.oid <$> rs.

Definition occupant_oids (os : list SkypeChatroomOccupant.t) : list nat :=
  (λ o, SkypeUser.oid (SkypeChatroomOccupant.base o)) <$> os.

(** The calls that accept the waiting contact requests. *)
Definition accept_all (us : list User) : list event :=
  SetBuddyStatusPendingAuthorization <$> us.

(** No call of [evs] raises in [w]. *)
Definition no_fault (w : World) (evs : list event) : Prop :=
  Forall (λ ev, fault w ev = None) evs.

(** What a caller can ask of the adapter. *)
Inductive request :=
| on_message (skype_msg : chatmessage.ChatMessage) (status : string)
| on_contact_request (user : User)
| ask_build_reply (mess : loc) (text : option string) (private : bool)
| ask_build_identifier (text : string)
| ask_query_room (room : string)
| ask_rooms
| ask_serve_forever
| on_room (room : SkypeChatroom.t) (op : SkypeChatroomMethods.operation).

(** The world after a request; an exception does not undo what was done
    before it was raised. *)
Definition serve (self : t) (q : request) (w : World) : World :=
  match q with
  | on_message skype_msg status =>
      (_message_event_handler self skype_msg status w).2
  | on_contact_request user => (_contact_request_event_handler self user w).2
  | ask_build_reply mess text private =>
      (build_reply self mess text private w).2
  | ask_build_identifier text => (build_identifier self text w).2
  | ask_query_room room => (query_room self room w).2
  | ask_rooms => (rooms self w).2
  | ask_serve_forever => (serve_forever_startup self w).2
  | on_room room op => (SkypeChatroomMethods.perform self room op w).2
  end.

Definition serve_all (self : t) (qs : list request) (w : World) : World :=
  foldl (λ w q, serve self q w) w qs.

(** The world after a run of recorded calls. *)
Definition record_all (evs : list event) (w : World) : World :=
  foldl (λ w ev, record ev w) w evs.

(** The backend with its identifier assigned. *)
Definition started (self : t) (w : World) : t :=
  {| id_ := id_ self; bot_config := bot_config self;
     bot_identifier :=
       Some (IdUser (SkypeUser.__init__ (next_oid w) (CurrentUser w)
                       TheBackend)) |}.

(** The wire after one more outgoing call. *)
Definition posted (c : SkypeBackendSending.sending)
    (s : SkypeBackendSending.Wire) : SkypeBackendSending.Wire :=
  {| SkypeBackendSending.world := SkypeBackendSending.world s;
     SkypeBackendSending.outbox := SkypeBackendSending.outbox s ++ [c];
     SkypeBackendSending.send_fault := SkypeBackendSending.send_fault s |}.

(** One of the two [SendMessage] calls. *)
Definition is_SendMessage (c : SkypeBackendSending.sending) : Prop :=
  match c with
  | SkypeBackendSending.super_send_message _ => False
  | _ => True
  end.

(** A wire on which every outgoing call returns. *)
Definition wire (w : World) (out : list SkypeBackendSending.sending)
    : SkypeBackendSending.Wire :=
  {| SkypeBackendSending.world := w;
     SkypeBackendSending.outbox := out;
     SkypeBackendSending.send_fault := λ _, None |}.

(** An event that is a lookup query or a call on chat [c]. *)
Definition about_chat (c : chat_id) (ev : event) : Prop :=
  match ev with
  | GetFriends | GetChats | SearchForUsers _ => True
  | Join c' | Leave c' | Disband c' | AddMembers c' _ => c' = c
  | _ => False
  end.

End further_vocabulary.

(** * Properties *)

(** ** Generic facts about the monad *)

Lemma bind_ret_l {A B} (a : A) (k : A → M B) w : bind (ret a) k w = k a w.
Proof. reflexivity. Qed.

Lemma bind_Ret {A B} (c : M A) (k : A → M B) w a w' :
  c w = (Ret a, w') → bind c k w = k a w'.
Proof. unfold bind. by intros ->. Qed.

Lemma bind_Raise {A B} (c : M A) (k : A → M B) w e w' :
  c w = (Raise e, w') → bind c k w = (Raise e, w').
Proof. unfold bind. by intros ->. Qed.

(** Objects built by [mapM] over a constructor: one per input, in order. *)
Lemma mapM_new {A B} (init : A → nat → B) (l : list A) w :
  ∃ w', mapM (λ x, new (init x)) l w
        = (Ret (imap (λ i x, init x (next_oid w + i)) l), w')
        ∧ trace w' = trace w ∧ chat_state w' = chat_state w
        ∧ heap w' = heap w ∧ cache w' = cache w
        ∧ next_oid w' = next_oid w + length l.
Proof.
  revert w. induction l as [|x l IH]; intros w.
  - exists w. cbn. repeat split; lia.
  - destruct (IH (set_next_oid S w)) as (w' & Hm & Ht & Hc & Hh & Hca & Hn).
    exists w'. cbn [mapM]. unfold bind, new at 1. fold (@new B).
    rewrite Hm. unfold ret. cbn in *.
    rewrite Nat.add_0_r. repeat split; try done.
    + do 3 f_equal. apply imap_ext. intros i y _. cbn. f_equal. lia.
    + lia.
Qed.

Lemma emitted_app w w' evs : trace w' = trace w ++ evs → emitted w w' = evs.
Proof. unfold emitted. intros ->. by rewrite drop_app_length. Qed.

Lemma emitted_refl w : emitted w w = [].
Proof. apply emitted_app. by rewrite app_nil_r. Qed.

Lemma trace_record ev w : trace (record ev w) = trace w ++ [ev].
Proof. reflexivity. Qed.

Lemma call_trace ev w : trace (call ev w).2 = trace w ++ [ev].
Proof. unfold call. by destruct (fault w ev). Qed.

Lemma call_outcome ev w :
  (call ev w).1 = match fault w ev with None => Ret tt | Some e => Raise e end.
Proof. unfold call. by destruct (fault w ev). Qed.

(** ** The trace only grows *)

Lemma grows_ret {A} (a : A) : grows (ret a).
Proof. by intros w. Qed.

Lemma grows_raise {A} (e : exn) : grows (@raise A e).
Proof. by intros w. Qed.

Lemma grows_gets {A} (f : World → A) : grows (gets f).
Proof. by intros w. Qed.

Lemma grows_new {A} (init : nat → A) : grows (new init).
Proof. by intros w. Qed.

Lemma grows_assert (b : bool) : grows (assert b).
Proof. by destruct b; intros w. Qed.

Lemma grows_modify (f : World → World) :
  (∀ w, trace (f w) = trace w) → grows (modify f).
Proof. intros Hf w. cbn. by rewrite Hf. Qed.

Lemma grows_call (ev : event) : grows (call ev).
Proof. intros w. rewrite call_trace. by apply prefix_app_r. Qed.

Lemma grows_query {A} (ev : event) (f : World → A) : grows (query ev f).
Proof. intros w. cbn. by apply prefix_app_r. Qed.

Lemma grows_bind {A B} (c : M A) (k : A → M B) :
  grows c → (∀ a, grows (k a)) → grows (bind c k).
Proof.
  intros Hc Hk w. unfold bind. specialize (Hc w).
  destruct (c w) as [[a|e] w1]; [|done].
  etrans; [exact Hc|apply Hk].
Qed.

Lemma grows_try_except {A} (body : M A) handles (handler : M A) :
  grows body → grows handler → grows (try_except body handles handler).
Proof.
  intros Hb Hh w. unfold try_except. specialize (Hb w).
  destruct (body w) as [[a|e] w1]; [done|].
  destruct (handles e); [|done]. etrans; [exact Hb|apply Hh].
Qed.

Lemma grows_mapM {A B} (f : A → M B) (l : list A) :
  (∀ x, grows (f x)) → grows (mapM f l).
Proof.
  intros Hf. induction l as [|x l IH]; cbn [mapM].
  - apply grows_ret.
  - apply grows_bind; [apply Hf|]. intros y.
    apply grows_bind; [apply IH|]. intros ys. apply grows_ret.
Qed.

Create HintDb grows.

Global Hint Resolve grows_ret grows_raise grows_gets grows_new grows_assert
  grows_call grows_query : grows.

(** Walks through a computation built from the pieces above. *)
Ltac grows :=
  repeat first
    [ solve [eauto with grows]
    | progress cbv zeta
    | apply grows_bind; [|intros ?]
    | apply grows_try_except
    | apply grows_mapM; intros ?
    | apply grows_modify; reflexivity
    | match goal with
      | |- grows (match ?x with _ => _ end) => destruct x
      end ].

Lemma grows_query_room (self : SkypeBackend.t) (room : string) :
  grows (SkypeBackend.query_room self room).
Proof. unfold SkypeBackend.query_room. grows. Qed.

Lemma grows_build_identifier_uncached (self : SkypeBackend.t) text :
  grows (SkypeBackend.build_identifier_uncached self text).
Proof.
  unfold SkypeBackend.build_identifier_uncached.
  pose proof (grows_query_room self text). grows.
Qed.

Lemma grows_build_identifier (self : SkypeBackend.t) text :
  grows (SkypeBackend.build_identifier self text).
Proof.
  intros w. unfold SkypeBackend.build_identifier. cbv zeta.
  destruct (cache w !! _); [done|].
  pose proof (grows_build_identifier_uncached self text w) as Hg.
  by destruct (SkypeBackend.build_identifier_uncached self text w)
    as [[r|e] w1].
Qed.

Global Hint Resolve grows_query_room grows_build_identifier : grows.

(** ** Identifier adapters *)

(** C6: every identity accessor of a [SkypeUser] returns the corresponding
    property of the wrapped native user unchanged: [nick], [handle],
    [person], [aclattr] and the string conversion give its [Handle],
    [fullname] its [FullName] and [displayname] its [DisplayName]; and the
    wrapped user is the one the wrapper was constructed from. *)
Theorem SkypeUser_accessors (o : nat) (u : User) (bot : bot_ref) :
  let self := SkypeUser.__init__ o u bot in
  SkypeUser.user self = u
  ∧ SkypeUser.nick self = Handle u
  ∧ SkypeUser.handle self = Handle u
  ∧ SkypeUser.person self = Handle u
  ∧ SkypeUser.aclattr self = Handle u
  ∧ SkypeUser.__str__ self = Handle u
  ∧ SkypeUser.__unicode__ self = Handle u
  ∧ SkypeUser.fullname self = FullName u
  ∧ SkypeUser.displayname self = DisplayName u.
Proof. cbv zeta. repeat split. Qed.

(** The same holds for a room occupant, which inherits the accessors. *)
Lemma SkypeChatroomOccupant_accessors (o : nat) (u : User)
    (room : SkypeChatroom.t) (bot : bot_ref) :
  let self := SkypeChatroomOccupant.__init__ o u room bot in
  SkypeChatroomOccupant.user self = u
  ∧ SkypeChatroomOccupant.nick self = Handle u
  ∧ SkypeChatroomOccupant.__str__ self = Handle u
  ∧ SkypeChatroomOccupant.fullname self = FullName u
  ∧ SkypeChatroomOccupant.displayname self = DisplayName u
  ∧ SkypeChatroomOccupant.room self = room.
Proof. cbv zeta. repeat split. Qed.

(** ** The room adapter *)

Section room.
Import SkypeChatroom SkypeChatroomMethods.

Lemma join_spec (self : t) username password w :
  join self username password w = call (Join (_chat self)) w.
Proof. reflexivity. Qed.

Lemma leave_spec (self : t) reason w :
  leave self reason w = call (Leave (_chat self)) w.
Proof. reflexivity. Qed.

Lemma topic_set_get (self : t) (new_topic : string) w :
  ∃ w', topic_setter self new_topic w = (Ret tt, w')
        ∧ topic self w' = (Ret new_topic, w')
        ∧ (∀ c, c ≠ _chat self → chat_state w' c = chat_state w c)
        ∧ trace w' = trace w.
Proof.
  eexists. split; [reflexivity|]. cbn. repeat split.
  - unfold topic, gets. cbn. by rewrite fn_lookup_insert.
  - intros c Hc. by rewrite fn_lookup_insert_ne.
Qed.

Lemma occupants_spec (self : t) w :
  ∃ occs w',
    occupants self w = (Ret occs, w')
    ∧ SkypeChatroomOccupant.user <$> occs
      = chat.Members (chat_state w (_chat self))
    ∧ Forall (λ o, SkypeChatroomOccupant.room o = self) occs
    ∧ trace w' = trace w ∧ chat_state w' = chat_state w.
Proof.
  unfold occupants, bind, gets.
  set (members := chat.Members (chat_state w (_chat self))).
  destruct (mapM_new
              (λ member o,
                 SkypeChatroomOccupant.__init__ o member self (_bot self))
              members w) as (w' & Hm & Ht & Hc & _).
  eexists _, w'. split; [exact Hm|]. repeat split; try done.
  - apply list_eq. intros i. rewrite list_lookup_fmap, list_lookup_imap.
    by destruct (members !! i).
  - apply Forall_lookup. intros i o. rewrite list_lookup_imap.
    destruct (members !! i); cbn; [|done]. by intros [= <-].
Qed.

(** C7: the room operations forward to the wrapped chat.  [join] makes
    exactly the call [Join()] whatever username and password are passed,
    [leave] exactly the call [Leave()] whatever the reason; reading
    [topic] gives the chat's [Topic], and after writing it a read gives
    the value written; [occupants] gives one occupant per member of the
    chat, in the order of the member list, each placed in this room. *)
Theorem SkypeChatroom_forwards (self : t) (w : World) :
  (∀ username password,
      join self username password w = join self None None w
      ∧ (join self username password w).1
        = match fault w (Join (_chat self)) with
          | None => Ret tt | Some e => Raise e end
      ∧ emitted w (join self username password w).2 = [Join (_chat self)])
  ∧ (∀ reason,
      leave self reason w = leave self None w
      ∧ (leave self reason w).1
        = match fault w (Leave (_chat self)) with
          | None => Ret tt | Some e => Raise e end
      ∧ emitted w (leave self reason w).2 = [Leave (_chat self)])
  ∧ topic self w = (Ret (chat.Topic (chat_state w (_chat self))), w)
  ∧ (∀ new_topic, ∃ w',
      topic_setter self new_topic w = (Ret tt, w')
      ∧ topic self w' = (Ret new_topic, w')
      ∧ chat.Topic (chat_state w' (_chat self)) = new_topic)
  ∧ (∃ occs w',
      occupants self w = (Ret occs, w')
      ∧ SkypeChatroomOccupant.user <$> occs
        = chat.Members (chat_state w (_chat self))
      ∧ Forall (λ o, SkypeChatroomOccupant.room o = self) occs).
Proof.
  split; [|split; [|split; [|split]]].
  - intros u p. rewrite !join_spec. split; [done|].
    split; [apply call_outcome|]. apply emitted_app, call_trace.
  - intros r. rewrite !leave_spec. split; [done|].
    split; [apply call_outcome|]. apply emitted_app, call_trace.
  - reflexivity.
  - intros new_topic.
    destruct (topic_set_get self new_topic w) as (w' & Hs & Hg & _).
    exists w'. split; [done|]. split; [done|].
    unfold topic, gets in Hg. by injection Hg.
  - destruct (occupants_spec self w) as (occs & w' & H1 & H2 & H3 & _).
    by exists occs, w'.
Qed.

Lemma grows_perform (bot : SkypeBackend.t) (self : t) (op : operation) :
  grows (perform bot self op).
Proof.
  destruct op; unfold perform, join, leave, create, destroy, discard,
    exists_, joined, topic, topic_setter, occupants, invite, str, __str__,
    __unicode__; grows.
Qed.

Lemma after_cons (bot : SkypeBackend.t) (self : t) op ops w :
  after bot self (op :: ops) w = after bot self ops (perform bot self op w).2.
Proof. reflexivity. Qed.

Lemma after_trace (bot : SkypeBackend.t) (self : t) ops w :
  trace w `prefix_of` trace (after bot self ops w).
Proof.
  revert w. induction ops as [|op ops IH]; intros w; [done|].
  rewrite after_cons. etrans; [apply grows_perform|apply IH].
Qed.

(** A [destroy] among the operations did reach the native chat. *)
Lemma destroy_recorded (bot : SkypeBackend.t) (self : t) ops w :
  do_destroy ∈ ops → Disband (_chat self) ∈ trace (after bot self ops w).
Proof.
  revert w. induction ops as [|op ops IH]; intros w Hin.
  - by apply not_elem_of_nil in Hin.
  - rewrite after_cons. apply elem_of_cons in Hin as [<-|Hin]; [|by apply IH].
    destruct (after_trace bot self ops (perform bot self do_destroy w).2)
      as [more ->].
    apply elem_of_app. left. cbn [perform]. unfold destroy.
    rewrite call_trace. apply elem_of_app. right.
    by apply list_elem_of_singleton.
Qed.

(** C10: [exists] returns [True] for every room and in every world, with
    no effect: after any sequence of operations on the room it still
    returns [True], also when [destroy] was among them and the chat was
    told to disband. *)
Theorem SkypeChatroom_exists_always (bot : SkypeBackend.t) (self : t)
    (ops : list operation) (w : World) :
  let w' := after bot self ops w in
  exists_ self w' = (Ret true, w')
  ∧ (do_destroy ∈ ops →
       Disband (_chat self) ∈ trace w' ∧ (exists_ self w').1 = Ret true).
Proof.
  cbv zeta. split; [reflexivity|]. intros Hin.
  split; [|reflexivity]. by apply destroy_recorded.
Qed.

End room.

(** ** Contact requests *)

Section contact_requests.
Import SkypeBackend.

Lemma init_flag (o : nat) (config : gmap string bool) :
  bot_config (__init__ o config) !! SKYPE_ACCEPT_CONTACT_REQUESTS
  = Some (default true (config !! SKYPE_ACCEPT_CONTACT_REQUESTS)).
Proof. unfold __init__. cbn. apply lookup_insert_eq. Qed.

(** C4: a contact request is accepted by the call
    [SetBuddyStatusPendingAuthorization()] on the user exactly when the
    configuration flag [SKYPE_ACCEPT_CONTACT_REQUESTS] is true, the flag
    counting as true when the configuration does not set it; when it is
    false nothing is called and the world is left as it was. *)
Theorem contact_request_accepted_iff_flag (o : nat)
    (config : gmap string bool) (user : User) (w : World) :
  let self := __init__ o config in
  let flag := default true (config !! "SKYPE_ACCEPT_CONTACT_REQUESTS") in
  let w' := (_process_contact_request self user w).2 in
  _process_contact_request self user w
  = (if flag then call (SetBuddyStatusPendingAuthorization user) w
     else (Ret tt, w))
  ∧ emitted w w'
    = (if flag then [SetBuddyStatusPendingAuthorization user] else [])
  ∧ (SetBuddyStatusPendingAuthorization user ∈ emitted w w'
     ↔ flag = true)
  ∧ (config !! "SKYPE_ACCEPT_CONTACT_REQUESTS" = None → flag = true).
Proof.
  cbv zeta.
  assert (_process_contact_request (__init__ o config) user w
          = if default true (config !! SKYPE_ACCEPT_CONTACT_REQUESTS)
            then call (SetBuddyStatusPendingAuthorization user) w
            else (Ret tt, w)) as Heq.
  { unfold _process_contact_request, get_bot_config.
    rewrite init_flag. unfold bind, ret.
    by destruct (default true _). }
  change "SKYPE_ACCEPT_CONTACT_REQUESTS" with SKYPE_ACCEPT_CONTACT_REQUESTS.
  rewrite Heq. split; [done|].
  destruct (default true (config !! SKYPE_ACCEPT_CONTACT_REQUESTS)) eqn:Hf.
  - rewrite (emitted_app _ _ _ (call_trace _ _)).
    repeat split; try done. intros _. apply list_elem_of_singleton. done.
  - cbn. rewrite emitted_refl. repeat split; try done.
    + intros H. by apply not_elem_of_nil in H.
    + intros Hn. rewrite Hn in Hf. done.
Qed.

End contact_requests.

(** ** Looking up a room *)

Section filter_one.
Context {A : Type} (P : A → Prop) `{!∀ x, Decision (P x)}.

(** A filter keeps exactly one element when the list splits around one
    element that passes, with no other element passing. *)
Lemma filter_singleton_split (l : list A) (x : A) :
  filter P l = [x]
  ↔ ∃ l1 l2, l = l1 ++ x :: l2 ∧ P x
             ∧ Forall (λ y, ¬ P y) (l1 ++ l2).
Proof.
  split.
  - induction l as [|y l IH]; [done|].
    rewrite filter_cons. case_decide as Hy.
    + intros [= -> Hnil]. exists [], l. split; [done|]. split; [done|].
      cbn. apply Forall_forall. intros z Hz Pz.
      apply list_elem_of_In in Hz.
      exact (filter_nil_not_elem_of P l z Hnil Pz Hz).
    + intros Hf. destruct (IH Hf) as (l1 & l2 & -> & Px & Hall).
      exists (y :: l1), l2. split; [done|]. split; [done|].
      cbn. by constructor.
  - intros (l1 & l2 & -> & Px & Hall).
    apply Forall_app in Hall as [H1 H2].
    rewrite list.filter_app, filter_cons, decide_True by done.
    assert (∀ k, Forall (λ y, ¬ P y) k → filter P k = []) as Hnil.
    { induction 1 as [|z k Hz _ IHk]; [done|].
      by rewrite filter_cons, decide_False. }
    by rewrite (Hnil l1), (Hnil l2).
Qed.

Lemma filter_two_split (l1 l2 l3 : list A) (x y : A) :
  P x → P y → 2 ≤ length (filter P (l1 ++ x :: l2 ++ y :: l3)).
Proof.
  intros Px Py.
  rewrite list.filter_app, filter_cons, decide_True by done.
  rewrite list.filter_app, filter_cons, (decide_True (P:=P y)) by done.
  rewrite length_app. cbn. rewrite length_app. cbn. lia.
Qed.

Lemma filter_none (l : list A) :
  Forall (λ y, ¬ P y) l → filter P l = [].
Proof.
  induction 1 as [|z k Hz _ IHk]; [done|].
  by rewrite filter_cons, decide_False.
Qed.
End filter_one.

Section query_room.
Import SkypeBackend.

Lemma query_room_unfold (self : t) (room : string) (w : World) :
  query_room self room w
  = let w1 := record GetChats w in
    match filter (λ c, chat.Name (chat_state w c) = room) (Chats w) with
    | [c] => (Ret (SkypeChatroom.__init__ (next_oid w) c TheBackend),
              set_next_oid S w1)
    | _ => (Raise (no_such_room room), w1)
    end.
Proof.
  unfold query_room, bind, query, gets. cbn.
  destruct (filter _ _) as [|c [|c' l]]; reflexivity.
Qed.

(** C8: [query_room] returns a room wrapping chat [c] exactly when [c]
    is the one and only entry of the client's chat list whose [Name] is
    the given name, and that room wraps a chat of that name; in every
    other case, no entry of that name or two or more of them, it raises
    [RoomDoesNotExistError] and returns nothing. *)
Theorem query_room_iff_unique (self : t) (room : string) (w : World) :
  (∀ c, only_chat_named w room c
        ↔ ∃ r w', query_room self room w = (Ret r, w')
                  ∧ SkypeChatroom.chat r = c)
  ∧ (∀ r w', query_room self room w = (Ret r, w')
             → chat.Name (chat_state w (SkypeChatroom.chat r)) = room)
  ∧ ((¬ ∃ c, only_chat_named w room c)
     → ∃ w', query_room self room w = (Raise (no_such_room room), w'))
  ∧ (Forall (λ c, chat.Name (chat_state w c) ≠ room) (Chats w)
     → ∃ w', query_room self room w = (Raise (no_such_room room), w'))
  ∧ (∀ l1 c1 l2 c2 l3,
        Chats w = l1 ++ c1 :: l2 ++ c2 :: l3
        → chat.Name (chat_state w c1) = room
        → chat.Name (chat_state w c2) = room
        → ∃ w', query_room self room w = (Raise (no_such_room room), w')).
Proof.
  rewrite query_room_unfold. cbv zeta.
  set (P := λ c, chat.Name (chat_state w c) = room).
  pose proof (filter_singleton_split P (Chats w)) as Hone.
  split; [|split; [|split; [|split]]].
  - intros c. split.
    + intros Hc. apply (proj2 (Hone c)) in Hc. rewrite Hc.
      by eexists _, _.
    + intros (r & w' & Hq & <-). apply (proj1 (Hone _)).
      destruct (filter P (Chats w)) as [|c' [|c'' l]]; try done.
      by injection Hq as <- _.
  - intros r w' Hq.
    destruct (filter P (Chats w)) as [|c' [|c'' l]]; try done.
    injection Hq as <- _. cbn.
    destruct (proj1 (Hone c') eq_refl) as (_ & _ & _ & Hc & _). exact Hc.
  - intros Hno.
    destruct (filter P (Chats w)) as [|c' [|c'' l]];
      try by eexists.
    destruct Hno. exists c'. by apply (proj1 (Hone c')).
  - intros Hall. rewrite (filter_none P) by done. by eexists.
  - intros l1 c1 l2 c2 l3 Hch H1 H2.
    pose proof (filter_two_split P l1 l2 l3 c1 c2 H1 H2) as Hlen.
    rewrite <- Hch in Hlen.
    destruct (filter P (Chats w)) as [|c' [|c'' l]];
      cbn in Hlen; try lia; by eexists.
Qed.

End query_room.

(** ** Replies *)

Section build_reply.
Import SkypeBackend.

Lemma alter_known (h : gmap loc Message) (l : loc) (m : Message)
    (f : Message → Message) :
  h !! l = Some m → alter f l h = <[l := f m]> h.
Proof.
  intros Hl. apply map_eq. intros i. destruct (decide (i = l)) as [->|Hne].
  - by rewrite lookup_alter_eq, lookup_insert_eq, Hl.
  - by rewrite lookup_alter_ne, lookup_insert_ne.
Qed.

(** A message nobody sent: the setter of [to] refuses the [None] it is
    given, [build_reply] raises and nothing has changed. *)
Lemma build_reply_without_sender (self : t) (mess : loc)
    (text : option string) (private : bool) (w : World) (m0 : Message) :
  heap w !! mess = Some m0 →
  frm m0 = None →
  build_reply self mess text private w = (Raise (OtherError "Exception"), w).
Proof.
  intros Hm Hfrm.
  unfold build_reply, bind, isinstance_Message, gets, getattr_Message,
    setattr_Message_to.
  rewrite Hm. rewrite bool_decide_true by eauto. cbn. rewrite Hm.
  by rewrite Hfrm.
Qed.

(** C9 (amended): for a message that has a sender, [build_reply] changes
    the message it is given and returns that very message: the result is
    the argument's reference, and the object behind it now has [to] equal
    to the original [frm], [frm] equal to the bot's own identifier, [body]
    equal to the given text ([None] when there is none) and type ["chat"]
    when [private] is set, its original type otherwise.  Every other
    message, and the rest of the world, is left as it was. *)
Theorem build_reply_in_place (self : t) (mess : loc)
    (text : option string) (private : bool) (w : World)
    (m0 : Message) (sender me : Identifier) :
  heap w !! mess = Some m0 →
  frm m0 = Some sender →
  bot_identifier self = Some me →
  ∃ w', build_reply self mess text private w = (Ret mess, w')
        ∧ heap w' !! mess = Some (reply_to m0 me text private)
        ∧ to (reply_to m0 me text private) = frm m0
        ∧ to (reply_to m0 me text private) = Some sender
        ∧ frm (reply_to m0 me text private) = Some me
        ∧ body (reply_to m0 me text private) = text
        ∧ type_ (reply_to m0 me text false) = type_ m0
        ∧ type_ (reply_to m0 me text true) = "chat"
        ∧ heap w' = <[mess := reply_to m0 me text private]> (heap w)
        ∧ trace w' = trace w ∧ cache w' = cache w
        ∧ next_oid w' = next_oid w ∧ chat_state w' = chat_state w.
Proof.
  intros Hm Hfrm Hme.
  unfold build_reply, bind, isinstance_Message, gets, getattr_Message,
    get_bot_identifier, setattr_Message_to, setattr_Message_frm,
    setattr_Message, modify.
  rewrite Hm, Hme. rewrite bool_decide_true by eauto. cbn.
  rewrite Hm, Hfrm. cbn.
  destruct private; cbn; eexists; (split; [reflexivity|]); cbn;
    rewrite (alter_known _ _ _ _ Hm), !alter_insert_eq, lookup_insert_eq;
    unfold reply_to; cbn; rewrite ?Hfrm; repeat split; reflexivity.
Qed.

End build_reply.

(** ** Incoming messages *)

Section incoming.
Import SkypeBackend.

Lemma _make_message_unfold (self : t) skype_msg w :
  _make_message self skype_msg w
  = let l := fresh (dom (heap w)) in
    if chatmessage.isinstance_ChatMessage skype_msg then
      if bool_decide (2 < length (chat_members w skype_msg)) then
        (Ret l, set_heap (insert l (groupchat_message w skype_msg))
                  (set_next_oid S (set_next_oid S w)))
      else
        match bot_identifier self with
        | Some me =>
            (Ret l, set_heap (insert l (chat_message w skype_msg me))
                      (set_next_oid S w))
        | None =>
            (Raise (AttributeError "bot_identifier"), set_next_oid S w)
        end
    else (Raise AssertionError, w).
Proof.
  unfold _make_message, bind, assert, gets, get_bot_identifier, chat_members.
  destruct (chatmessage.isinstance_ChatMessage skype_msg); [|done].
  cbn. case_bool_decide; cbn; [done|].
  by destruct (bot_identifier self).
Qed.

Lemma _make_message_frame (self : t) skype_msg w :
  let w' := (_make_message self skype_msg w).2 in
  trace w' = trace w ∧ fault w' = fault w ∧ cache w' = cache w
  ∧ chat_state w' = chat_state w.
Proof.
  rewrite _make_message_unfold. cbv zeta.
  destruct (chatmessage.isinstance_ChatMessage skype_msg); [|done].
  case_bool_decide; [done|]. by destruct (bot_identifier self).
Qed.

(** C1: for an incoming chat message, [_make_message] builds a message
    of type ["groupchat"] exactly when the chat has more than two
    members, addressed to the room and sent by the sender as an occupant
    of it; with two members or fewer it builds a message of type
    ["chat"] addressed to the bot's own identifier.  The [Type] property
    of the chat and that of the message play no part: changing them
    changes neither the outcome nor the message built. *)
Theorem _make_message_groupchat_iff_members (self : t)
    (skype_msg : chatmessage.ChatMessage) (w : World) :
  chatmessage.isinstance_ChatMessage skype_msg = true →
  let members := chat_members w skype_msg in
  (2 < length members →
     ∃ l w', _make_message self skype_msg w = (Ret l, w')
             ∧ heap w' !! l = Some (groupchat_message w skype_msg))
  ∧ (∀ me, length members ≤ 2 → bot_identifier self = Some me →
       ∃ l w', _make_message self skype_msg w = (Ret l, w')
               ∧ heap w' !! l = Some (chat_message w skype_msg me))
  ∧ (∀ l w' msg,
       _make_message self skype_msg w = (Ret l, w') →
       heap w' !! l = Some msg →
       (type_ msg = "groupchat" ↔ 2 < length members)
       ∧ (type_ msg = "chat" ↔ length members ≤ 2)
       ∧ (type_ msg = "chat" → to msg = bot_identifier self))
  ∧ (∀ chat_type message_type,
       let w2 := with_chat_Type (chatmessage.Chat skype_msg) chat_type w in
       let skype_msg2 := chatmessage.set_Type_ message_type skype_msg in
       (_make_message self skype_msg2 w2).1
       = (_make_message self skype_msg w).1
       ∧ heap (_make_message self skype_msg2 w2).2
         = heap (_make_message self skype_msg w).2).
Proof.
  intros Hinst members.
  split; [|split; [|split]].
  - intros Hlen. rewrite _make_message_unfold, Hinst. cbv zeta.
    rewrite bool_decide_true by done.
    eexists _, _. split; [reflexivity|]. cbn. apply lookup_insert_eq.
  - intros me Hlen Hme. rewrite _make_message_unfold, Hinst, Hme. cbv zeta.
    rewrite bool_decide_false by (fold members; lia).
    eexists _, _. split; [reflexivity|]. cbn. apply lookup_insert_eq.
  - intros l w' msg. rewrite _make_message_unfold, Hinst. cbv zeta.
    fold members. case_bool_decide as Hlen.
    + intros [= <- <-]. cbn. rewrite lookup_insert_eq. intros [= <-]. cbn.
      repeat split; try done; try lia.
    + destruct (bot_identifier self) as [me|]; [|done].
      intros [= <- <-]. cbn. rewrite lookup_insert_eq. intros [= <-]. cbn.
      repeat split; try done; try lia.
  - intros chat_type message_type w2 skype_msg2.
    rewrite !_make_message_unfold. cbv zeta.
    assert (chat_members w2 skype_msg2 = chat_members w skype_msg) as ->.
    { unfold chat_members, w2, with_chat_Type. cbn.
      by rewrite fn_lookup_insert. }
    subst w2 skype_msg2. cbn. rewrite Hinst.
    case_bool_decide; [done|]. by destruct (bot_identifier self).
Qed.

End incoming.

(** ** The message event handler *)

Section handler.
Import SkypeBackend.

Lemma mark_as_seen_spec i w :
  mark_as_seen i w
  = (match fault w (MarkAsSeen i) with
     | None => Ret tt
     | Some e => if is_SkypeError e then Ret tt else Raise e
     end, record (MarkAsSeen i) w).
Proof.
  unfold mark_as_seen, try_except, call.
  destruct (fault w (MarkAsSeen i)) as [e|]; [|done].
  by destruct (is_SkypeError e).
Qed.

Lemma handler_ignored (self : t) skype_msg status w :
  chatmessage.Status skype_msg ≠ "RECEIVED" →
  _message_event_handler self skype_msg status w
  = mark_as_seen (chatmessage.Id skype_msg) w.
Proof.
  intros Hs. unfold _message_event_handler.
  rewrite decide_False by done. reflexivity.
Qed.

Lemma handler_received (self : t) skype_msg status w :
  chatmessage.Status skype_msg = "RECEIVED" →
  _message_event_handler self skype_msg status w
  = match _make_message self skype_msg w with
    | (Ret l, w1) =>
        match fault w (callback_message l) with
        | None =>
            mark_as_seen (chatmessage.Id skype_msg)
              (record (callback_message l) w1)
        | Some e => (Raise e, record (callback_message l) w1)
        end
    | (Raise e, w1) => (Raise e, w1)
    end.
Proof.
  intros Hs. unfold _message_event_handler.
  rewrite decide_True by done. unfold bind at 1 2.
  pose proof (_make_message_frame self skype_msg w) as (_ & Hf & _).
  destruct (_make_message self skype_msg w) as [[l|e] w1]; [|done].
  cbn in Hf. unfold call. rewrite Hf.
  by destruct (fault w (callback_message l)).
Qed.

(** C2 (amended): for a status other than ['RECEIVED'] the handler
    builds no message and does not call [callback_message]: the only
    thing done is the call to [MarkAsSeen].  For a ['RECEIVED'] chat
    message, once the bot's identifier is assigned, the handler builds a
    new message from the native one, with its body and with its sender as
    the message's sender, and the first thing recorded is the one call
    of [callback_message] on that message.  So, once the bot's identifier
    is assigned, [callback_message] is called exactly when the [Status] is
    ['RECEIVED']; and whenever it is called, it is on what
    [_make_message] returned for a ['RECEIVED'] message. *)
Theorem handler_callback_iff_received (self : t)
    (skype_msg : chatmessage.ChatMessage) (status : string) (w : World) :
  let w' := (_message_event_handler self skype_msg status w).2 in
  (chatmessage.Status skype_msg ≠ "RECEIVED" →
     emitted w w' = [MarkAsSeen (chatmessage.Id skype_msg)]
     ∧ heap w' = heap w ∧ next_oid w' = next_oid w)
  ∧ (∀ me,
       chatmessage.isinstance_ChatMessage skype_msg = true →
       bot_identifier self = Some me →
       chatmessage.Status skype_msg = "RECEIVED" →
       let built :=
         if bool_decide (2 < length (chat_members w skype_msg))
         then groupchat_message w skype_msg
         else chat_message w skype_msg me in
       ∃ l rest,
         emitted w w' = callback_message l :: rest
         ∧ (∀ l', callback_message l' ∉ rest)
         ∧ heap w !! l = None
         ∧ heap w' !! l = Some built
         ∧ body built = Some (chatmessage.Body skype_msg)
         ∧ SkypeBackendSending.getattr_handle (frm built)
           = Ret (Handle (chatmessage.Sender skype_msg)))
  ∧ (∀ l w1,
       chatmessage.Status skype_msg = "RECEIVED" →
       _make_message self skype_msg w = (Ret l, w1) →
       ∃ rest, emitted w w' = callback_message l :: rest
               ∧ (∀ l', callback_message l' ∉ rest)
               ∧ heap w' = heap w1)
  ∧ (∀ l, callback_message l ∈ emitted w w' →
       chatmessage.Status skype_msg = "RECEIVED"
       ∧ ∃ w1, _make_message self skype_msg w = (Ret l, w1))
  ∧ (chatmessage.isinstance_ChatMessage skype_msg = true →
     is_Some (bot_identifier self) →
     ((∃ l, callback_message l ∈ emitted w w')
      ↔ chatmessage.Status skype_msg = "RECEIVED")).
Proof.
  cbv zeta.
  assert (∀ i w0, emitted w0 (mark_as_seen i w0).2 = [MarkAsSeen i]
                  ∧ heap (mark_as_seen i w0).2 = heap w0
                  ∧ next_oid (mark_as_seen i w0).2 = next_oid w0) as Hmark.
  { intros i w0. rewrite mark_as_seen_spec. cbn [snd]. split; [|done].
    by apply emitted_app. }
  assert (∀ l w1,
            chatmessage.Status skype_msg = "RECEIVED" →
            _make_message self skype_msg w = (Ret l, w1) →
            ∃ rest,
              emitted w (_message_event_handler self skype_msg status w).2
              = callback_message l :: rest
              ∧ (∀ l', callback_message l' ∉ rest)
              ∧ heap (_message_event_handler self skype_msg status w).2
                = heap w1) as Hrecv.
  { intros l w1 Hs Hmk. rewrite handler_received, Hmk by done.
    pose proof (_make_message_frame self skype_msg w) as (Ht & _).
    rewrite Hmk in Ht. cbn in Ht.
    destruct (fault w (callback_message l)) as [e|].
    - exists []. cbn [snd]. split; [|split; [|done]].
      + apply emitted_app. by rewrite trace_record, Ht.
      + intros l' H. by apply not_elem_of_nil in H.
    - rewrite mark_as_seen_spec. cbn [snd].
      exists [MarkAsSeen (chatmessage.Id skype_msg)].
      split; [|split; [|done]].
      + apply emitted_app. rewrite !trace_record, Ht.
        by rewrite <- app_assoc.
      + intros l' H. apply list_elem_of_singleton in H. done. }
  assert (∀ l,
            callback_message l
            ∈ emitted w (_message_event_handler self skype_msg status w).2 →
            chatmessage.Status skype_msg = "RECEIVED"
            ∧ ∃ w1, _make_message self skype_msg w = (Ret l, w1)) as Hback.
  { intros l Hin.
    destruct (decide (chatmessage.Status skype_msg = "RECEIVED"))
      as [Hs|Hs].
    - split; [done|].
      pose proof (_make_message_frame self skype_msg w) as (Ht & _).
      destruct (_make_message self skype_msg w) as [[l0|e] w1] eqn:Hmk.
      + destruct (Hrecv l0 w1 Hs eq_refl) as (rest & He & Hrest & _).
        rewrite He in Hin. apply elem_of_cons in Hin as [[= ->]|Hin].
        * by exists w1.
        * by apply Hrest in Hin.
      + rewrite handler_received, Hmk in Hin by done. cbn in Hin, Ht.
        rewrite (emitted_app w w1 []) in Hin
          by (by rewrite Ht, app_nil_r).
        by apply not_elem_of_nil in Hin.
    - rewrite handler_ignored in Hin by done.
      destruct (Hmark (chatmessage.Id skype_msg) w) as (He & _).
      rewrite He in Hin. apply list_elem_of_singleton in Hin. done. }
  split; [|split; [|split; [|split]]].
  - intros Hs. rewrite handler_ignored by done. apply Hmark.
  - intros me Hinst Hme Hs.
    pose proof (_make_message_unfold self skype_msg w) as Hmk.
    cbv zeta in Hmk. rewrite Hinst, Hme in Hmk.
    assert (heap w !! fresh (dom (heap w)) = None) as Hfree.
    { apply not_elem_of_dom, is_fresh. }
    destruct (bool_decide (2 < length (chat_members w skype_msg)));
      destruct (Hrecv _ _ Hs Hmk) as (rest & He & Hrest & Hheap);
      exists (fresh (dom (heap w))), rest;
      (split; [exact He|]); (split; [exact Hrest|]);
      (split; [exact Hfree|]); rewrite Hheap; cbn;
      (split; [apply lookup_insert_eq|done]).
  - exact Hrecv.
  - exact Hback.
  - intros Hinst [me Hme]. split.
    + intros [l Hin]. by apply Hback in Hin as [? _].
    + intros Hs.
      pose proof (_make_message_unfold self skype_msg w) as Hmk.
      cbv zeta in Hmk. rewrite Hinst, Hme in Hmk.
      destruct (bool_decide _) in Hmk;
        destruct (Hrecv _ _ Hs Hmk) as (rest & He & _);
        eexists; rewrite He; apply elem_of_cons; by left.
Qed.

Lemma handler_at_MarkAsSeen (self : t) skype_msg status w w1 :
  reaches_MarkAsSeen self skype_msg w w1 →
  _message_event_handler self skype_msg status w
  = mark_as_seen (chatmessage.Id skype_msg) w1
  ∧ fault w1 = fault w.
Proof.
  intros [[Hs ->]|[Hs (l & w0 & Hmk & Hcb & ->)]].
  - by rewrite handler_ignored.
  - rewrite handler_received, Hmk, Hcb by done. split; [done|].
    pose proof (_make_message_frame self skype_msg w) as (_ & Hf & _).
    by rewrite Hmk in Hf.
Qed.

(** C3: a [SkypeError] raised by [MarkAsSeen()] is caught and ignored:
    the handler returns as it does when [MarkAsSeen()] succeeds.  Nothing
    else is caught: any other exception of [MarkAsSeen()] leaves the
    handler, and so does every exception of [callback_message] and of
    [_make_message], a [SkypeError] included; in those two cases
    [MarkAsSeen()] is not called at all. *)
Theorem handler_catches_only_SkypeError_of_MarkAsSeen (self : t)
    (skype_msg : chatmessage.ChatMessage) (status : string) (w : World) :
  let run := _message_event_handler self skype_msg status w in
  let seen := MarkAsSeen (chatmessage.Id skype_msg) in
  (∀ w1, reaches_MarkAsSeen self skype_msg w w1 →
     (fault w seen = None → run = (Ret tt, record seen w1))
     ∧ (fault w seen = Some SkypeError → run = (Ret tt, record seen w1))
     ∧ (∀ e, fault w seen = Some e → e ≠ SkypeError →
          run = (Raise e, record seen w1)))
  ∧ (∀ l w0 e,
       chatmessage.Status skype_msg = "RECEIVED" →
       _make_message self skype_msg w = (Ret l, w0) →
       fault w (callback_message l) = Some e →
       run = (Raise e, record (callback_message l) w0)
       ∧ seen ∉ emitted w run.2)
  ∧ (∀ w0 e,
       chatmessage.Status skype_msg = "RECEIVED" →
       _make_message self skype_msg w = (Raise e, w0) →
       run = (Raise e, w0) ∧ emitted w run.2 = []).
Proof.
  cbv zeta. split; [|split].
  - intros w1 Hreach.
    destruct (handler_at_MarkAsSeen self skype_msg status w w1 Hreach)
      as [-> Hf].
    rewrite mark_as_seen_spec, Hf. split; [|split].
    + by intros ->.
    + by intros ->.
    + intros e -> He. by destruct e.
  - intros l w0 e Hs Hmk Hcb.
    rewrite handler_received, Hmk, Hcb by done. split; [done|].
    pose proof (_make_message_frame self skype_msg w) as (Ht & _).
    rewrite Hmk in Ht. cbn [snd] in *.
    rewrite (emitted_app w _ [callback_message l])
      by (by rewrite trace_record, Ht).
    intros H. apply list_elem_of_singleton in H. done.
  - intros w0 e Hs Hmk. rewrite handler_received, Hmk by done.
    split; [done|].
    pose proof (_make_message_frame self skype_msg w) as (Ht & _).
    rewrite Hmk in Ht. cbn [snd] in *.
    apply emitted_app. by rewrite Ht, app_nil_r.
Qed.

End handler.

(** ** Memoized identifier lookups *)

Section build_identifier.
Import SkypeBackend.

Lemma query_room_cache (self : t) room w :
  cache (query_room self room w).2 = cache w.
Proof.
  rewrite query_room_unfold. cbv zeta.
  by destruct (filter _ _) as [|c [|c' l]].
Qed.

(** The decorated function never touches the cache itself. *)
Lemma build_identifier_uncached_cache (self : t) text w :
  cache (build_identifier_uncached self text w).2 = cache w.
Proof.
  pose proof (query_room_cache self text (record GetFriends w)) as Hq.
  cbv beta iota zeta delta [build_identifier_uncached bind query].
  destruct (filter _ (Friends w)) as [|f [|f' l]]; [|done|].
  all: cbv beta iota zeta delta [bind try_except];
    destruct (query_room self text (record GetFriends w)) as [[r|e] w1];
    cbn [snd] in Hq; [exact Hq|];
    destruct (is_RoomDoesNotExistError e); [|exact Hq];
    cbv beta iota zeta delta [ret call gets];
    destruct (fault w1 (SearchForUsers text)); [exact Hq|];
    by destruct (filter _ (directory _ text)) as [|u [|u' k]].
Qed.

Lemma build_identifier_hit (self : t) text w r :
  cache w !! (__hash__ self, text) = Some r →
  build_identifier self text w = (Ret r, w).
Proof. unfold build_identifier. cbv zeta. by intros ->. Qed.

Lemma build_identifier_stores (self : t) text w r w1 :
  build_identifier self text w = (Ret r, w1) →
  cache w1 !! (__hash__ self, text) = Some r.
Proof.
  unfold build_identifier. cbv zeta.
  destruct (cache w !! (__hash__ self, text)) as [r0|] eqn:Hc.
  - by intros [= <- <-].
  - destruct (build_identifier_uncached self text w) as [[r0|e] w0];
      [|done].
    intros [= <- <-]. cbn. apply lookup_insert_eq.
Qed.

(** Nothing is evicted: a call only ever adds to the cache. *)
Lemma build_identifier_keeps (self : t) text w :
  cache w ⊆ cache (build_identifier self text w).2.
Proof.
  unfold build_identifier. cbv zeta.
  destruct (cache w !! (__hash__ self, text)) as [r0|] eqn:Hc; [done|].
  pose proof (build_identifier_uncached_cache self text w) as Hu.
  destruct (build_identifier_uncached self text w) as [[r0|e] w0];
    cbn in *; rewrite Hu; [|done].
  by apply insert_subseteq.
Qed.

Lemma between_calls_keeps w w' :
  rtc between_calls w w' → cache w ⊆ cache w'.
Proof.
  induction 1 as [|w w1 w2 Hstep _ IH]; [done|].
  etrans; [|exact IH].
  destruct Hstep as [(self & text & ->)| ->]; [|done].
  apply build_identifier_keeps.
Qed.

(** C5: once [build_identifier] has returned a result for an argument,
    every later call with that argument returns that very result, however
    many other lookups were made in between and whatever became of the
    buddy list, the chats and the directory; the later call records no
    query and leaves the world as it found it. *)
Theorem build_identifier_memoized (self : t) (text : string)
    (w w1 w2 : World) (r : Identifier) :
  build_identifier self text w = (Ret r, w1) →
  rtc between_calls w1 w2 →
  build_identifier self text w2 = (Ret r, w2)
  ∧ emitted w2 (build_identifier self text w2).2 = [].
Proof.
  intros Hfirst Hlater.
  assert (build_identifier self text w2 = (Ret r, w2)) as Hsecond.
  { apply build_identifier_hit.
    eapply lookup_weaken; [|by apply between_calls_keeps].
    by eapply build_identifier_stores. }
  split; [done|]. rewrite Hsecond. apply emitted_refl.
Qed.

End build_identifier.

(** * The properties at work on the small client *)

Section scenario_checks.
Import SkypeBackend.

(** Three members make a group chat, two a dialogue with the bot. *)
Lemma _make_message_on_scenario :
  (∃ l w', _make_message the_bot (said "RECEIVED" 2) calm = (Ret l, w')
           ∧ heap w' !! l
             = Some (groupchat_message calm (said "RECEIVED" 2)))
  ∧ (∃ l w', _make_message the_bot (said "RECEIVED" 1) calm = (Ret l, w')
             ∧ heap w' !! l
               = Some (chat_message calm (said "RECEIVED" 1) me)).
Proof.
  split.
  - apply (_make_message_groupchat_iff_members
             the_bot (said "RECEIVED" 2) calm eq_refl).
    vm_compute. lia.
  - apply (_make_message_groupchat_iff_members
             the_bot (said "RECEIVED" 1) calm eq_refl).
    + vm_compute. lia.
    + reflexivity.
Defined.

(** A received message reaches the framework, built from the native
    one; a sent one does not. *)
Lemma handler_on_scenario :
  (let w' := (_message_event_handler the_bot (said "SENT" 1) "SENT" calm).2
   in emitted calm w' = [MarkAsSeen 7] ∧ heap w' = heap calm
      ∧ next_oid w' = next_oid calm)
  ∧ (let w' :=
       (_message_event_handler the_bot (said "RECEIVED" 1) "RECEIVED" calm).2
     in
     ∃ l rest,
       emitted calm w' = callback_message l :: rest
       ∧ (∀ l', callback_message l' ∉ rest)
       ∧ heap calm !! l = None
       ∧ heap w' !! l = Some (chat_message calm (said "RECEIVED" 1) me)
       ∧ body (chat_message calm (said "RECEIVED" 1) me) = Some "!help"
       ∧ SkypeBackendSending.getattr_handle
           (frm (chat_message calm (said "RECEIVED" 1) me))
         = Ret "alice").
Proof.
  split.
  - destruct (handler_callback_iff_received
                the_bot (said "SENT" 1) "SENT" calm) as (Hother & _).
    apply Hother. discriminate.
  - destruct (handler_callback_iff_received
                the_bot (said "RECEIVED" 1) "RECEIVED" calm)
      as (_ & Hreceived & _).
    apply (Hreceived me eq_refl eq_refl eq_refl).
Defined.

(** Before [serve_forever] has given the bot its identifier, a received
    message of a two-member chat is not passed on: converting it raises
    and [callback_message] is not called. *)
Lemma handler_before_serve_forever :
  chatmessage.Status (said "RECEIVED" 1) = "RECEIVED"
  ∧ _message_event_handler unstarted_bot (said "RECEIVED" 1) "RECEIVED" calm
    = (Raise (AttributeError "bot_identifier"), set_next_oid S calm)
  ∧ ¬ ∃ l, callback_message l
           ∈ emitted calm
               (_message_event_handler unstarted_bot (said "RECEIVED" 1)
                  "RECEIVED" calm).2.
Proof.
  split; [reflexivity|]. split; [reflexivity|].
  intros [l Hin]. vm_compute in Hin. by apply not_elem_of_nil in Hin.
Qed.

(** [MarkAsSeen] raising [SkypeError] goes unnoticed; another exception of
    [MarkAsSeen], a [SkypeError] of the callback and the assertion failure
    of [_make_message] all leave the handler. *)
Lemma handler_exceptions_on_scenario :
  let quiet := scenario [] [1] (MarkAsSeen_raises SkypeError) in
  let loud := scenario [] [1] (MarkAsSeen_raises (OtherError "SkypeAPIError"))
  in
  let deaf := scenario [] [1] (callback_raises SkypeError) in
  _message_event_handler the_bot (said "READ" 1) "READ" quiet
  = (Ret tt, record (MarkAsSeen 7) quiet)
  ∧ _message_event_handler the_bot (said "READ" 1) "READ" loud
    = (Raise (OtherError "SkypeAPIError"), record (MarkAsSeen 7) loud)
  ∧ (_message_event_handler the_bot (said "RECEIVED" 1) "RECEIVED" deaf).1
    = Raise SkypeError
  ∧ _message_event_handler the_bot not_a_chat_message "RECEIVED" calm
    = (Raise AssertionError, calm).
Proof.
  cbv zeta. split; [|split; [|split]].
  - destruct (handler_catches_only_SkypeError_of_MarkAsSeen
                the_bot (said "READ" 1) "READ"
                (scenario [] [1] (MarkAsSeen_raises SkypeError)))
      as (Hseen & _).
    destruct (Hseen (scenario [] [1] (MarkAsSeen_raises SkypeError)))
      as (_ & Hswallow & _).
    + left. split; [discriminate | reflexivity].
    + apply Hswallow. reflexivity.
  - destruct (handler_catches_only_SkypeError_of_MarkAsSeen
                the_bot (said "READ" 1) "READ"
                (scenario [] [1]
                   (MarkAsSeen_raises (OtherError "SkypeAPIError"))))
      as (Hseen & _).
    destruct (Hseen (scenario [] [1]
                       (MarkAsSeen_raises (OtherError "SkypeAPIError"))))
      as (_ & _ & Hother).
    + left. split; [discriminate | reflexivity].
    + apply Hother; [reflexivity | discriminate].
  - destruct (handler_catches_only_SkypeError_of_MarkAsSeen
                the_bot (said "RECEIVED" 1) "RECEIVED"
                (scenario [] [1] (callback_raises SkypeError)))
      as (_ & Hcallback & _).
    destruct (Hcallback 0
                (_make_message the_bot (said "RECEIVED" 1)
                   (scenario [] [1] (callback_raises SkypeError))).2
                SkypeError eq_refl eq_refl eq_refl) as [-> _].
    reflexivity.
  - destruct (handler_catches_only_SkypeError_of_MarkAsSeen
                the_bot not_a_chat_message "RECEIVED" calm)
      as (_ & _ & Hmake).
    apply (Hmake calm AssertionError); reflexivity.
Defined.

(** One chat named [team] is found; two are not, and neither is none. *)
Lemma query_room_on_scenario :
  (∃ r w', query_room the_bot "team" calm = (Ret r, w')
           ∧ SkypeChatroom.chat r = 2)
  ∧ (∃ w', query_room the_bot "team" (scenario [] [1; 2; 3] no_faults)
           = (Raise (no_such_room "team"), w'))
  ∧ (∃ w', query_room the_bot "lobby" calm
           = (Raise (no_such_room "lobby"), w')).
Proof.
  split; [|split].
  - apply (query_room_iff_unique the_bot "team" calm).
    exists [1], []. split; [reflexivity|]. split; [reflexivity|].
    repeat constructor. discriminate.
  - apply (query_room_iff_unique the_bot "team"
             (scenario [] [1; 2; 3] no_faults))
      with (l1 := [1]) (c1 := 2) (l2 := []) (c2 := 3) (l3 := []);
      reflexivity.
  - apply (query_room_iff_unique the_bot "lobby" calm).
    repeat constructor; discriminate.
Defined.

Lemma build_reply_on_scenario :
  ∃ w', build_reply the_bot 3 (Some "all good") false with_waiting_message
        = (Ret 3, w')
        ∧ heap w' !! 3
          = Some {| body := Some "all good"; type_ := "groupchat";
                    frm := Some me;
                    to := Some (IdUser (SkypeUser.__init__ 9 bob TheBackend))
                 |}.
Proof.
  destruct (build_reply_in_place the_bot 3 (Some "all good") false
              with_waiting_message waiting_message
              (IdUser (SkypeUser.__init__ 9 bob TheBackend)) me
              eq_refl eq_refl eq_refl)
    as (w' & Hrun & Hheap & _).
  exists w'. split; [exact Hrun | exact Hheap].
Defined.

(** A message that has no sender cannot be replied to: the setter of
    [to] refuses [None], [build_reply] raises, nothing is returned and the
    message is as it was. *)
Lemma build_reply_of_unsent_note :
  heap (holding unsent_note) !! 3 = Some unsent_note
  ∧ build_reply the_bot 3 (Some "pong") false (holding unsent_note)
    = (Raise (OtherError "Exception"), holding unsent_note)
  ∧ ¬ ∃ w', build_reply the_bot 3 (Some "pong") false (holding unsent_note)
            = (Ret 3, w').
Proof.
  assert (build_reply the_bot 3 (Some "pong") false (holding unsent_note)
          = (Raise (OtherError "Exception"), holding unsent_note)) as Hrun.
  { by apply (build_reply_without_sender _ _ _ _ _ unsent_note). }
  split; [reflexivity|]. split; [exact Hrun|].
  intros [w' Hret]. by rewrite Hrun in Hret.
Qed.

Lemma build_identifier_on_scenario :
  build_identifier the_bot "alice" unfriended
  = (Ret alice_identifier, unfriended)
  ∧ emitted unfriended (build_identifier the_bot "alice" unfriended).2 = [].
Proof.
  apply (build_identifier_memoized the_bot "alice" calm looked_up unfriended
           alice_identifier).
  - reflexivity.
  - apply rtc_once. right. reflexivity.
Defined.

(** Without the cache the later lookup would have failed. *)
Example uncached_lookup_fails :
  ∃ msg, (build_identifier_uncached the_bot "alice" unfriended).1
         = Raise (ValueError msg).
Proof. eexists. reflexivity. Qed.

(** A first lookup that raises stores nothing. *)
Example failed_lookup_not_cached :
  (build_identifier the_bot "dave" calm).1
  = Raise (ValueError
      "Unable to build an identifier from %s. Maybe the user doesn't exist or there's no chat with that identifier")
  ∧ cache (build_identifier the_bot "dave" calm).2 = cache calm.
Proof. split; reflexivity. Qed.

(** The flag left out of the configuration, and set to false. *)
Lemma contact_request_on_scenario :
  emitted calm (_process_contact_request (__init__ 100 ∅) carol calm).2
  = [SetBuddyStatusPendingAuthorization carol]
  ∧ _process_contact_request
      (__init__ 100 {[ "SKYPE_ACCEPT_CONTACT_REQUESTS" := false ]}) carol calm
    = (Ret tt, calm).
Proof.
  split.
  - destruct (contact_request_accepted_iff_flag 100 ∅ carol calm)
      as (_ & Hcalls & _).
    exact Hcalls.
  - destruct (contact_request_accepted_iff_flag 100
                {[ "SKYPE_ACCEPT_CONTACT_REQUESTS" := false ]} carol calm)
      as (Hrun & _).
    exact Hrun.
Defined.

(** Starting up: attach, announce, take the bot's identity, accept the
    waiting request. *)
Example serve_forever_startup_on_scenario :
  trace (serve_forever_startup (__init__ 100 ∅) calm).2
  = [Attach; connect_callback; SetBuddyStatusPendingAuthorization carol].
Proof. reflexivity. Qed.

(** A room still exists after it was disbanded. *)
Lemma exists_on_scenario :
  let room := SkypeChatroom.__init__ 8 2 TheBackend in
  let w := SkypeChatroomMethods.after the_bot room
             [SkypeChatroomMethods.do_join None None;
              SkypeChatroomMethods.do_destroy;
              SkypeChatroomMethods.get_topic] calm in
  Disband 2 ∈ trace w
  ∧ (SkypeChatroomMethods.exists_ room w).1 = Ret true.
Proof.
  cbv zeta.
  apply (SkypeChatroom_exists_always the_bot
           (SkypeChatroom.__init__ 8 2 TheBackend)
           [SkypeChatroomMethods.do_join None None;
            SkypeChatroomMethods.do_destroy;
            SkypeChatroomMethods.get_topic] calm).
  apply elem_of_cons. right. apply elem_of_cons. by left.
Defined.

Example trace_after_destroy :
  trace (SkypeChatroomMethods.after the_bot
           (SkypeChatroom.__init__ 8 2 TheBackend)
           [SkypeChatroomMethods.do_join None None;
            SkypeChatroomMethods.do_destroy;
            SkypeChatroomMethods.get_topic] calm)
  = [Join 2; Disband 2].
Proof. reflexivity. Qed.

(** Inviting looks each argument up and passes the handles on. *)
Example invite_on_scenario :
  trace (SkypeChatroomMethods.invite the_bot
           (SkypeChatroom.__init__ 8 2 TheBackend) ["alice"; "carol"] calm).2
  = [GetFriends; GetFriends; GetChats; SearchForUsers "carol";
     AddMembers 2 ["alice"; "carol"]].
Proof. reflexivity. Qed.

End scenario_checks.

(** * More of the adapter *)

(** ** Where an identifier comes from *)

(** The events between two worlds that are spelled out. *)
Ltac solve_emitted :=
  apply emitted_app; cbn; rewrite <- ?app_assoc; reflexivity.

Section lookups.
Import SkypeBackend.

Lemma only_one_filter {A} (P : A → Prop) `{!∀ x, Decision (P x)}
    (l : list A) (x : A) :
  only_one P l x ↔ filter P l = [x].
Proof. unfold only_one. by rewrite filter_singleton_split. Qed.

Lemma only_friend_filter w text f :
  only_friend w text f ↔ filter (λ f, Handle f = text) (Friends w) = [f].
Proof. apply (only_one_filter (λ f, Handle f = text)). Qed.

Lemma only_hit_filter w text u :
  only_hit w text u ↔ filter (λ u, Handle u = text) (directory w text) = [u].
Proof. apply (only_one_filter (λ u, Handle u = text)). Qed.

Lemma only_chat_named_filter w text c :
  only_chat_named w text c
  ↔ filter (λ c, chat.Name (chat_state w c) = text) (Chats w) = [c].
Proof. apply (only_one_filter (λ c, chat.Name (chat_state w c) = text)). Qed.

(** The lookup as a decision list: friends, then chats, then directory. *)
Lemma build_identifier_uncached_unfold (self : t) (text : string) w :
  build_identifier_uncached self text w
  = let w1 := record GetFriends w in
    let w2 := record GetChats w1 in
    let w3 := record (SearchForUsers text) w2 in
    match filter (λ f, Handle f = text) (Friends w) with
    | [f] => (Ret (IdUser (SkypeUser.__init__ (next_oid w) f TheBackend)),
              set_next_oid S w1)
    | _ =>
      match filter (λ c, chat.Name (chat_state w c) = text) (Chats w) with
      | [c] => (Ret (IdRoom (SkypeChatroom.__init__ (next_oid w) c
                               TheBackend)),
                set_next_oid S w2)
      | _ =>
        match fault w (SearchForUsers text) with
        | Some e => (Raise e, w3)
        | None =>
          match filter (λ u, Handle u = text) (directory w text) with
          | [u] => (Ret (IdUser (SkypeUser.__init__ (next_oid w) u
                                   TheBackend)),
                    set_next_oid S w3)
          | _ => (Raise no_identifier, w3)
          end
        end
      end
    end.
Proof.
  cbv beta iota zeta delta [build_identifier_uncached bind query].
  destruct (filter _ (Friends w)) as [|f [|f' l]]; [|done|].
  all: cbv beta iota zeta delta [bind try_except];
    rewrite query_room_unfold; cbv zeta; change (Chats (record _ w)) with (Chats w);
    change (chat_state (record GetFriends w)) with (chat_state w);
    destruct (filter _ (Chats w)) as [|c [|c' k]]; [|done|]; cbn;
    unfold call; cbn; destruct (fault w (SearchForUsers text)); [done| |done|];
    cbn; by destruct (filter _ (directory w text)) as [|u [|u' m]].
Qed.

Lemma build_identifier_miss (self : t) (text : string) w :
  cache w !! (__hash__ self, text) = None →
  build_identifier self text w
  = match build_identifier_uncached self text w with
    | (Ret r, w') => (Ret r, set_cache (insert (__hash__ self, text) r) w')
    | (Raise e, w') => (Raise e, w')
    end.
Proof. unfold build_identifier. cbv zeta. by intros ->. Qed.

(** X1: a friend comes first.  When exactly one friend has the handle
    looked up and nothing is memoized for it, [build_identifier] returns a
    [SkypeUser] wrapping that friend and memoizes it, having read the buddy
    list only: neither the chats nor the directory are consulted, whatever
    they hold. *)
Theorem build_identifier_prefers_friend (self : t) (text : string)
    (w : World) (f : User) :
  cache w !! (__hash__ self, text) = None →
  only_friend w text f →
  let r := IdUser (SkypeUser.__init__ (next_oid w) f TheBackend) in
  ∃ w', build_identifier self text w = (Ret r, w')
        ∧ emitted w w' = [GetFriends]
        ∧ cache w' = <[(__hash__ self, text) := r]> (cache w).
Proof.
  intros Hmiss Hf. cbv zeta. apply only_friend_filter in Hf.
  rewrite build_identifier_miss, build_identifier_uncached_unfold by done.
  cbv zeta. rewrite Hf. eexists. split; [reflexivity|].
  split; [solve_emitted|done].
Qed.

(** X2: a chat comes second.  When no single friend has the handle but
    exactly one chat has the name, the lookup returns a [SkypeChatroom]
    wrapping that chat, having read the buddy list and the chats; the
    directory is not searched. *)
Theorem build_identifier_then_room (self : t) (text : string)
    (w : World) (c : chat_id) :
  cache w !! (__hash__ self, text) = None →
  (¬ ∃ f, only_friend w text f) →
  only_chat_named w text c →
  let r := IdRoom (SkypeChatroom.__init__ (next_oid w) c TheBackend) in
  ∃ w', build_identifier self text w = (Ret r, w')
        ∧ emitted w w' = [GetFriends; GetChats]
        ∧ cache w' = <[(__hash__ self, text) := r]> (cache w).
Proof.
  intros Hmiss Hnof Hc. cbv zeta.
  apply only_chat_named_filter in Hc.
  rewrite build_identifier_miss, build_identifier_uncached_unfold by done.
  cbv zeta. rewrite Hc.
  destruct (filter _ (Friends w)) as [|f [|f' l]] eqn:Hf.
  2:{ destruct Hnof. exists f. by apply only_friend_filter. }
  all: eexists; split; [reflexivity|]; split; [solve_emitted|done].
Qed.

(** X3: the directory comes last.  When neither a single friend nor a
    single chat answers to the text, the directory is searched; if the
    search returns and exactly one hit has the handle, the lookup returns
    a [SkypeUser] wrapping it. *)
Theorem build_identifier_then_directory (self : t) (text : string)
    (w : World) (u : User) :
  cache w !! (__hash__ self, text) = None →
  (¬ ∃ f, only_friend w text f) →
  (¬ ∃ c, only_chat_named w text c) →
  fault w (SearchForUsers text) = None →
  only_hit w text u →
  let r := IdUser (SkypeUser.__init__ (next_oid w) u TheBackend) in
  ∃ w', build_identifier self text w = (Ret r, w')
        ∧ emitted w w' = [GetFriends; GetChats; SearchForUsers text]
        ∧ cache w' = <[(__hash__ self, text) := r]> (cache w).
Proof.
  intros Hmiss Hnof Hnoc Hfault Hu. cbv zeta. apply only_hit_filter in Hu.
  rewrite build_identifier_miss, build_identifier_uncached_unfold by done.
  cbv zeta. rewrite Hu, Hfault.
  destruct (filter _ (Friends w)) as [|f [|f' l]] eqn:Hf.
  2:{ destruct Hnof. exists f. by apply only_friend_filter. }
  all: destruct (filter _ (Chats w)) as [|c [|c' k]] eqn:Hc.
  all: try (destruct Hnoc; exists c; by apply only_chat_named_filter).
  all: eexists; split; [reflexivity|]; split; [solve_emitted|done].
Qed.

(** X4: a lookup that fails.  [build_identifier] raises only what the
    directory search raised, or else [ValueError]; the
    [RoomDoesNotExistError] of the room lookup never gets out on its own.
    A failure is not memoized: the cache is as it was, so the next call
    asks again. *)
Theorem build_identifier_failure (self : t) (text : string)
    (w w' : World) (e : exn) :
  build_identifier self text w = (Raise e, w') →
  (e = no_identifier ∨ fault w (SearchForUsers text) = Some e)
  ∧ cache w' = cache w
  ∧ cache w !! (__hash__ self, text) = None
  ∧ emitted w w' = [GetFriends; GetChats; SearchForUsers text].
Proof.
  unfold build_identifier. cbv zeta.
  destruct (cache w !! (__hash__ self, text)) eqn:Hmiss; [done|].
  rewrite build_identifier_uncached_unfold. cbv zeta.
  destruct (filter _ (Friends w)) as [|f [|f' l]]; [|done|].
  all: destruct (filter _ (Chats w)) as [|c [|c' k]]; [|done|].
  all: destruct (fault w (SearchForUsers text)) as [e'|] eqn:Hfault.
  all: try (intros [= <- <-]; split; [by right|];
            split; [done|]; split; [done|]; solve_emitted).
  all: destruct (filter _ (directory w text)) as [|u [|u' m]]; try done.
  all: intros [= <- <-]; split; [by left|];
    split; [done|]; split; [done|]; solve_emitted.
Qed.

End lookups.

(** ** Invariants and the kinds of events, through the monad *)

Section through_the_monad.
Context {I : World → Prop} {P : event → Prop}.

Lemma keeps_ret {A} (a : A) : keeps I (ret a).
Proof. by intros w. Qed.

Lemma keeps_raise {A} (e : exn) : keeps I (@raise A e).
Proof. by intros w. Qed.

Lemma keeps_gets {A} (f : World → A) : keeps I (gets f).
Proof. by intros w. Qed.

Lemma keeps_assert (b : bool) : keeps I (assert b).
Proof. by destruct b; intros w. Qed.

Lemma keeps_bind {A B} (c : M A) (k : A → M B) :
  keeps I c → (∀ a, keeps I (k a)) → keeps I (bind c k).
Proof.
  intros Hc Hk w Hw. unfold bind. specialize (Hc w Hw).
  destruct (c w) as [[a|e] w1]; [|done]. by apply Hk.
Qed.

Lemma keeps_try_except {A} (body : M A) handles (handler : M A) :
  keeps I body → keeps I handler → keeps I (try_except body handles handler).
Proof.
  intros Hb Hh w Hw. unfold try_except. specialize (Hb w Hw).
  destruct (body w) as [[a|e] w1]; [done|].
  destruct (handles e); [|done]. by apply Hh.
Qed.

Lemma keeps_mapM {A B} (f : A → M B) (l : list A) :
  (∀ x, keeps I (f x)) → keeps I (mapM f l).
Proof.
  intros Hf. induction l as [|x l IH]; cbn [mapM].
  - apply keeps_ret.
  - apply keeps_bind; [apply Hf|]. intros y.
    apply keeps_bind; [apply IH|]. intros ys. apply keeps_ret.
Qed.

Lemma emits_silent {A} (c : M A) :
  (∀ w, trace (c w).2 = trace w) → emits P c.
Proof. intros Hc w. exists []. by rewrite Hc, app_nil_r. Qed.

Lemma emits_ret {A} (a : A) : emits P (ret a).
Proof. by apply emits_silent. Qed.

Lemma emits_raise {A} (e : exn) : emits P (@raise A e).
Proof. by apply emits_silent. Qed.

Lemma emits_gets {A} (f : World → A) : emits P (gets f).
Proof. by apply emits_silent. Qed.

Lemma emits_new {A} (init : nat → A) : emits P (new init).
Proof. by apply emits_silent. Qed.

Lemma emits_assert (b : bool) : emits P (assert b).
Proof. apply emits_silent. by destruct b. Qed.

Lemma emits_modify (f : World → World) :
  (∀ w, trace (f w) = trace w) → emits P (modify f).
Proof. intros Hf. by apply emits_silent. Qed.

Lemma emits_call (ev : event) : P ev → emits P (call ev).
Proof.
  intros Hev w. exists [ev]. rewrite call_trace. split; [done|].
  by constructor.
Qed.

Lemma emits_query {A} (ev : event) (f : World → A) :
  P ev → emits P (query ev f).
Proof. intros Hev w. exists [ev]. split; [done|]. by constructor. Qed.

Lemma emits_bind {A B} (c : M A) (k : A → M B) :
  emits P c → (∀ a, emits P (k a)) → emits P (bind c k).
Proof.
  intros Hc Hk w. unfold bind. destruct (Hc w) as (evs & Ht & Hevs).
  destruct (c w) as [[a|e] w1]; [|by exists evs].
  destruct (Hk a w1) as (evs' & Ht' & Hevs').
  exists (evs ++ evs'). cbn in Ht. rewrite Ht', Ht, app_assoc.
  split; [done|]. by apply Forall_app.
Qed.

Lemma emits_try_except {A} (body : M A) handles (handler : M A) :
  emits P body → emits P handler → emits P (try_except body handles handler).
Proof.
  intros Hb Hh w. unfold try_except. destruct (Hb w) as (evs & Ht & Hevs).
  destruct (body w) as [[a|e] w1]; [by exists evs|].
  destruct (handles e); [|by exists evs].
  destruct (Hh w1) as (evs' & Ht' & Hevs').
  exists (evs ++ evs'). cbn in Ht. rewrite Ht', Ht, app_assoc.
  split; [done|]. by apply Forall_app.
Qed.

Lemma emits_mapM {A B} (f : A → M B) (l : list A) :
  (∀ x, emits P (f x)) → emits P (mapM f l).
Proof.
  intros Hf. induction l as [|x l IH]; cbn [mapM].
  - apply emits_ret.
  - apply emits_bind; [apply Hf|]. intros y.
    apply emits_bind; [apply IH|]. intros ys. apply emits_ret.
Qed.

End through_the_monad.

Lemma emits_emitted {A} (P : event → Prop) (c : M A) w :
  emits P c → Forall P (emitted w (c w).2).
Proof.
  intros Hc. destruct (Hc w) as (evs & Ht & Hevs).
  by rewrite (emitted_app _ _ _ Ht).
Qed.

Create HintDb emits.

Global Hint Resolve emits_ret emits_raise emits_gets emits_new emits_assert
  : emits.

Ltac emits :=
  repeat first
    [ solve [eauto with emits]
    | progress cbv zeta
    | apply emits_bind; [|intros ?]
    | apply emits_try_except
    | apply emits_mapM; intros ?
    | apply emits_modify; reflexivity
    | apply emits_call; solve [cbn; eauto]
    | apply emits_query; solve [cbn; eauto]
    | match goal with
      | |- emits _ (match ?x with _ => _ end) => destruct x
      end ].

(** ** The memo table stays true to the names *)

Section sound_cache.
Import SkypeBackend.

Lemma reads_as_frame w w' i text :
  (∀ c, chat.Name (chat_state w' c) = chat.Name (chat_state w c)) →
  reads_as w i text → reads_as w' i text.
Proof.
  intros Hnames. unfold reads_as. destruct i as [u|o|r]; cbn; [done|done|].
  by rewrite Hnames.
Qed.

Lemma cache_sound_frame w w' :
  cache w' = cache w →
  (∀ c, chat.Name (chat_state w' c) = chat.Name (chat_state w c)) →
  cache_sound w → cache_sound w'.
Proof.
  intros Hc Hnames Hw k text r Hr. rewrite Hc in Hr.
  eapply reads_as_frame; [done|]. by eapply Hw.
Qed.

(** A computation that leaves the cache and the names of the chats alone
    keeps the memo table sound. *)
Lemma keeps_sound_frame {A} (c : M A) :
  (∀ w, cache (c w).2 = cache w
        ∧ ∀ ch, chat.Name (chat_state (c w).2 ch)
                = chat.Name (chat_state w ch)) →
  keeps cache_sound c.
Proof. intros Hc w Hw. destruct (Hc w). by eapply cache_sound_frame. Qed.

Lemma sound_new {A} (init : nat → A) : keeps cache_sound (new init).
Proof. by apply keeps_sound_frame. Qed.

Lemma sound_call (ev : event) : keeps cache_sound (call ev).
Proof.
  apply keeps_sound_frame. intros w. unfold call. by destruct (fault w ev).
Qed.

Lemma sound_query {A} (ev : event) (f : World → A) :
  keeps cache_sound (query ev f).
Proof. by apply keeps_sound_frame. Qed.

Lemma sound_new_Message b ty f t : keeps cache_sound (new_Message b ty f t).
Proof. by apply keeps_sound_frame. Qed.

Lemma sound_isinstance_Message mess :
  keeps cache_sound (isinstance_Message mess).
Proof. by apply keeps_sound_frame. Qed.

Lemma sound_getattr_Message {A} mess attr (field : Message → A) :
  keeps cache_sound (getattr_Message mess attr field).
Proof.
  apply keeps_sound_frame. intros w. unfold getattr_Message.
  by destruct (heap w !! mess).
Qed.

Lemma sound_setattr_Message mess upd :
  keeps cache_sound (setattr_Message mess upd).
Proof. by apply keeps_sound_frame. Qed.

Lemma sound_setattr_Message_to mess v :
  keeps cache_sound (setattr_Message_to mess v).
Proof.
  unfold setattr_Message_to. destruct (hasattr_person v).
  - apply sound_setattr_Message.
  - apply keeps_raise.
Qed.

Lemma sound_setattr_Message_frm mess v :
  keeps cache_sound (setattr_Message_frm mess v).
Proof.
  unfold setattr_Message_frm. destruct (hasattr_person v).
  - apply sound_setattr_Message.
  - apply keeps_raise.
Qed.

Lemma sound_topic_setter (room : SkypeChatroom.t) (topic : string) :
  keeps cache_sound (SkypeChatroomMethods.topic_setter room topic).
Proof.
  apply keeps_sound_frame. intros w. split; [done|]. intros ch. cbn.
  destruct (decide (ch = SkypeChatroom._chat room)) as [->|Hne].
  - by rewrite fn_lookup_insert.
  - by rewrite fn_lookup_insert_ne.
Qed.

(** What a lookup that was not memoized returns reads as the text looked
    up, and the lookup leaves chats and cache as they were. *)
Lemma build_identifier_uncached_reads_as (self : t) text w r w' :
  build_identifier_uncached self text w = (Ret r, w') →
  reads_as w' r text ∧ chat_state w' = chat_state w ∧ cache w' = cache w.
Proof.
  rewrite build_identifier_uncached_unfold. cbv zeta.
  destruct (filter _ (Friends w)) as [|f [|f' l]] eqn:Hf.
  2:{ intros [= <- <-].
      apply only_friend_filter in Hf as (_ & _ & _ & Hh & _).
      split; [|done]. unfold reads_as. cbn. by rewrite <- Hh. }
  all: destruct (filter _ (Chats w)) as [|c [|c' k]] eqn:Hc.
  all: try (intros [= <- <-];
            apply only_chat_named_filter in Hc as (_ & _ & _ & Hn & _);
            split; [|done]; unfold reads_as; cbn; by rewrite Hn).
  all: destruct (fault w (SearchForUsers text)); [done|].
  all: destruct (filter _ (directory w text)) as [|u [|u' m]] eqn:Hu;
    try done.
  all: intros [= <- <-];
    apply only_hit_filter in Hu as (_ & _ & _ & Hh & _);
    split; [|done]; unfold reads_as; cbn; by rewrite <- Hh.
Qed.

Lemma sound_build_identifier (self : t) (text : string) :
  keeps cache_sound (build_identifier self text).
Proof.
  intros w Hw. unfold build_identifier. cbv zeta.
  destruct (cache w !! (__hash__ self, text)); [done|].
  destruct (build_identifier_uncached self text w) as [[r|e] w1] eqn:Hrun.
  - destruct (build_identifier_uncached_reads_as _ _ _ _ _ Hrun)
      as (Hr & Hst & Hc).
    intros k t r' Hr'. cbn in Hr'.
    apply reads_as_frame with w1; [done|].
    destruct (decide ((__hash__ self, text) = (k, t))) as [[= <- <-]|Hne].
    + rewrite lookup_insert_eq in Hr'. by injection Hr' as <-.
    + rewrite lookup_insert_ne in Hr' by done. rewrite Hc in Hr'.
      apply reads_as_frame with w; [by rewrite Hst|]. by eapply Hw.
  - pose proof (build_identifier_uncached_cache self text w) as Hc.
    rewrite Hrun in Hc. cbn [snd] in *.
    assert (chat_state w1 = chat_state w) as Hst.
    { revert Hrun. rewrite build_identifier_uncached_unfold. cbv zeta.
      destruct (filter _ (Friends w)) as [|f [|f' l]]; [|done|].
      all: destruct (filter _ (Chats w)) as [|c [|c' k]]; [|done|].
      all: destruct (fault w (SearchForUsers text)); [by intros [= _ <-]|].
      all: destruct (filter _ (directory w text)) as [|u [|u' m]];
        try done; by intros [= _ <-]. }
    apply cache_sound_frame with w; [done|by rewrite Hst|done].
Qed.

Create HintDb sound.

Hint Resolve keeps_ret keeps_raise keeps_gets keeps_assert sound_new
  sound_call sound_query sound_new_Message sound_isinstance_Message
  sound_getattr_Message sound_setattr_Message sound_setattr_Message_to
  sound_setattr_Message_frm sound_topic_setter
  sound_build_identifier : sound.

Ltac sound :=
  repeat first
    [ solve [eauto with sound]
    | progress cbv zeta
    | apply keeps_bind; [|intros ?]
    | apply keeps_try_except
    | apply keeps_mapM; intros ?
    | match goal with
      | |- keeps _ (match ?x with _ => _ end) => destruct x
      | |- keeps _ (if ?x then _ else _) => destruct x
      end ].

Lemma sound_perform (self : t) (room : SkypeChatroom.t)
    (op : SkypeChatroomMethods.operation) :
  keeps cache_sound (SkypeChatroomMethods.perform self room op).
Proof.
  destruct op; cbn [SkypeChatroomMethods.perform];
    unfold SkypeChatroomMethods.join, SkypeChatroomMethods.leave,
      SkypeChatroomMethods.create, SkypeChatroomMethods.destroy,
      SkypeChatroomMethods.discard, SkypeChatroomMethods.exists_,
      SkypeChatroomMethods.joined, SkypeChatroomMethods.topic,
      SkypeChatroomMethods.occupants, SkypeChatroomMethods.invite,
      SkypeChatroomMethods.str, SkypeChatroomMethods.__str__,
      SkypeChatroomMethods.__unicode__; sound.
Qed.

Lemma sound_serve (self : t) (q : request) w :
  cache_sound w → cache_sound (serve self q w).
Proof.
  destruct q; cbn [serve].
  - apply (keeps_bind (I:=cache_sound)); [|intros ?].
    + unfold _make_message, get_bot_identifier. sound.
    + sound.
  - unfold _contact_request_event_handler, _process_contact_request,
      get_bot_config.
    match goal with |- _ → cache_sound (?c w).2 =>
      cut (keeps cache_sound c); [by intros H; apply H|] end.
    sound.
  - match goal with |- _ → cache_sound (?c w).2 =>
      cut (keeps cache_sound c); [by intros H; apply H|] end.
    unfold build_reply, get_bot_identifier. sound.
  - apply sound_build_identifier.
  - match goal with |- _ → cache_sound (?c w).2 =>
      cut (keeps cache_sound c); [by intros H; apply H|] end.
    unfold query_room. sound.
  - match goal with |- _ → cache_sound (?c w).2 =>
      cut (keeps cache_sound c); [by intros H; apply H|] end.
    unfold rooms. sound.
  - match goal with |- _ → cache_sound (?c w).2 =>
      cut (keeps cache_sound c); [by intros H; apply H|] end.
    unfold serve_forever_startup, _process_contact_request, get_bot_config.
    sound.
  - apply sound_perform.
Qed.

Lemma build_identifier_reads_as (self : t) (text : string)
    (w w' : World) (r : Identifier) :
  cache_sound w →
  build_identifier self text w = (Ret r, w') →
  reads_as w' r text.
Proof.
  intros Hw Hrun.
  pose proof (sound_build_identifier self text w Hw) as Hw'.
  rewrite Hrun in Hw'. cbn in Hw'.
  apply (Hw' (__hash__ self) text r).
  by eapply build_identifier_stores.
Qed.

(** X5: the string form of an identifier is the text it was built from.
    In a world whose memo table is sound, whatever [build_identifier]
    returns for a text reads back as that text: the handle of a user, the
    name of a room. *)
Theorem build_identifier_reads_back (self : t) (text : string)
    (w w' : World) (r : Identifier) :
  cache_sound w →
  build_identifier self text w = (Ret r, w') →
  (SkypeChatroomMethods.str r w').1 = Ret text.
Proof. apply build_identifier_reads_as. Qed.

(** X6: the memo table stays sound.  Starting from a sound table, for
    instance an empty one, no sequence of requests to the adapter, message
    events, contact requests, replies, lookups, room operations, makes a
    memoized identifier read as anything but the text it is stored under. *)
Theorem cache_sound_invariant (self : t) (qs : list request) (w : World) :
  cache_sound w → cache_sound (serve_all self qs w).
Proof.
  revert w. induction qs as [|q qs IH]; intros w Hw; [done|].
  apply IH. by apply sound_serve.
Qed.

End sound_cache.

(** ** Inviting *)

Lemma mapM_cons {A B} (f : A → M B) (x : A) (l : list A) w :
  mapM f (x :: l) w
  = match f x w with
    | (Ret y, w1) =>
        match mapM f l w1 with
        | (Ret ys, w2) => (Ret (y :: ys), w2)
        | (Raise e, w2) => (Raise e, w2)
        end
    | (Raise e, w1) => (Raise e, w1)
    end.
Proof.
  cbn [mapM]. unfold bind. destruct (f x w) as [[y|e] w1]; [|done].
  by destruct (mapM f l w1) as [[ys|e] w2].
Qed.

Section inviting.
Import SkypeBackend SkypeChatroomMethods.

Lemma str_returns (i : Identifier) w : ∃ s, str i w = (Ret s, w).
Proof. destruct i; by eexists. Qed.

Lemma emits_build_identifier (self : SkypeBackend.t) text :
  emits is_lookup (build_identifier self text).
Proof.
  intros w. unfold build_identifier. cbv zeta.
  destruct (cache w !! _).
  { exists []. by rewrite app_nil_r. }
  assert (emits is_lookup (build_identifier_uncached self text)) as Hu.
  { unfold build_identifier_uncached, query_room. emits. }
  destruct (Hu w) as (evs & Ht & Hevs). exists evs.
  by destruct (build_identifier_uncached self text w) as [[r|e] w1].
Qed.

(** One argument of [invite]: look it up and take its string form. *)
Lemma invite_one (bot : SkypeBackend.t) (user : string) w s w' :
  cache_sound w →
  (i <- build_identifier bot user ;; str i) w = (Ret s, w') →
  s = user ∧ cache_sound w'.
Proof.
  intros Hw. unfold bind.
  pose proof (sound_build_identifier bot user w Hw) as Hw1.
  destruct (build_identifier bot user w) as [[i|e] w1] eqn:Hrun; [|done].
  pose proof (build_identifier_reads_as bot user w w1 i Hw Hrun) as Hs.
  unfold reads_as in Hs.
  destruct (str_returns i w1) as (s' & Hstr). rewrite Hstr in Hs |- *.
  intros [= <- <-]. cbn in Hs. by injection Hs as ->.
Qed.

(** The lookups of [invite], with and without the string forms: with a
    sound memo table the string forms are the texts looked up, so the two
    runs differ in their results only. *)
Lemma invite_lookups (bot : SkypeBackend.t) (args : list string) w :
  cache_sound w →
  mapM (λ user, i <- build_identifier bot user ;; str i) args w
  = match mapM (build_identifier bot) args w with
    | (Ret ids, w1) => (Ret args, w1)
    | (Raise e, w1) => (Raise e, w1)
    end.
Proof.
  set (one := λ user, i <- build_identifier bot user ;; str i).
  revert w. induction args as [|user args IH]; intros w Hw; [done|].
  rewrite !mapM_cons.
  pose proof (sound_build_identifier bot user w Hw) as Hw1.
  assert (one user w
          = match build_identifier bot user w with
            | (Ret i, w1) => str i w1
            | (Raise e, w1) => (Raise e, w1)
            end) as Hstep by reflexivity.
  destruct (build_identifier bot user w) as [[i|e] w1];
    rewrite Hstep; [|done].
  destruct (str_returns i w1) as (s & Hstr).
  destruct (invite_one bot user w s w1 Hw) as [-> _].
  { change (one user w = (Ret s, w1)). by rewrite Hstep. }
  rewrite Hstr, (IH w1 Hw1).
  by destruct (mapM (build_identifier bot) args w1) as [[ids|e] w2].
Qed.

(** X7: an invitation is all or nothing.  With a sound memo table,
    [invite] does what looking every argument up in turn does, recording
    nothing but lookup queries, and then: if every lookup returned, it
    calls [AddMembers] once, on the wrapped chat and with exactly the
    texts it was given, in their order, and returns or raises as that
    call does; if a lookup raised, it raises the same exception there and
    [AddMembers] is not called at all. *)
Theorem invite_all_or_nothing (bot : SkypeBackend.t) (self : SkypeChatroom.t)
    (args : list string) (w : World) :
  cache_sound w →
  let lookups := mapM (build_identifier bot) args w in
  let run := invite bot self args w in
  run = match lookups with
        | (Ret ids, w1) => call (AddMembers (SkypeChatroom._chat self) args) w1
        | (Raise e, w1) => (Raise e, w1)
        end
  ∧ Forall is_lookup (emitted w lookups.2)
  ∧ (∀ ids, lookups.1 = Ret ids →
       emitted w run.2
       = emitted w lookups.2 ++ [AddMembers (SkypeChatroom._chat self) args])
  ∧ (∀ e, lookups.1 = Raise e →
       run.1 = Raise e
       ∧ ∀ c users, AddMembers c users ∉ emitted w run.2).
Proof.
  intros Hw. cbv zeta.
  assert (emits is_lookup (mapM (build_identifier bot) args)) as Hl.
  { apply emits_mapM. intros user. apply emits_build_identifier. }
  assert (invite bot self args w
          = match mapM (build_identifier bot) args w with
            | (Ret ids, w1) =>
                call (AddMembers (SkypeChatroom._chat self) args) w1
            | (Raise e, w1) => (Raise e, w1)
            end) as Hrun.
  { unfold invite. unfold bind at 1. rewrite (invite_lookups bot args w Hw).
    by destruct (mapM (build_identifier bot) args w) as [[ids|e] w1]. }
  rewrite Hrun. split; [done|].
  pose proof (emits_emitted is_lookup _ w Hl) as Hlooked.
  destruct (Hl w) as (looked & Ht & _).
  rewrite (emitted_app _ _ _ Ht) in Hlooked |- *.
  split; [done|].
  destruct (mapM (build_identifier bot) args w) as [[ids|e] w1];
    cbn [fst snd] in *; split.
  - intros ids' _. apply emitted_app. rewrite call_trace.
    by rewrite Ht, app_assoc.
  - by intros e.
  - by intros ids.
  - intros e' [= <-]. split; [done|]. intros c users.
    rewrite (emitted_app _ _ _ Ht). intros Hin.
    eapply Forall_forall in Hlooked.
    2:{ apply list_elem_of_In. exact Hin. }
    exact Hlooked.
Qed.

Lemma emits_weaken {A} (P Q : event → Prop) (c : M A) :
  (∀ ev, P ev → Q ev) → emits P c → emits Q c.
Proof.
  intros HPQ Hc w. destruct (Hc w) as (evs & Ht & Hevs).
  exists evs. split; [done|]. by eapply Forall_impl.
Qed.

Lemma emits_perform (bot : SkypeBackend.t) (self : SkypeChatroom.t)
    (op : operation) :
  emits (about_chat (SkypeChatroom._chat self)) (perform bot self op).
Proof.
  assert (∀ text, emits (about_chat (SkypeChatroom._chat self))
                    (build_identifier bot text)) as Hlook.
  { intros text. eapply emits_weaken; [|apply emits_build_identifier].
    by intros []. }
  destruct op; unfold perform, join, leave, create, destroy, discard,
    exists_, joined, topic, topic_setter, occupants, invite, str, __str__,
    __unicode__; emits.
Qed.

(** X23: a room object acts on its own chat only.  Whatever operations
    are performed on a room object, every call that reaches the client is
    a lookup query or a call on the chat the object wraps: no other chat
    is joined, left, disbanded or given members, no message is marked or
    passed on, and no contact request is answered. *)
Theorem room_acts_on_its_chat_only (bot : SkypeBackend.t)
    (self : SkypeChatroom.t) (ops : list operation) (w : World) :
  Forall (about_chat (SkypeChatroom._chat self))
    (emitted w (after bot self ops w)).
Proof.
  assert (∃ evs, trace (after bot self ops w) = trace w ++ evs
                 ∧ Forall (about_chat (SkypeChatroom._chat self)) evs)
    as (evs & Ht & Hevs).
  { revert w. induction ops as [|op ops IH]; intros w.
    - exists []. by rewrite app_nil_r.
    - destruct (emits_perform bot self op w) as (evs1 & Ht1 & Hevs1).
      destruct (IH (perform bot self op w).2) as (evs2 & Ht2 & Hevs2).
      exists (evs1 ++ evs2). split; [|by apply Forall_app].
      change (after bot self (op :: ops) w)
        with (after bot self ops (perform bot self op w).2).
      by rewrite Ht2, Ht1, app_assoc. }
  by rewrite (emitted_app _ _ _ Ht).
Qed.

End inviting.

(** ** Listing rooms and occupants *)

Section listing.
Import SkypeBackend.

Lemma imap_seq_oids {A} (l : list A) (n : nat) :
  imap (λ i _, n + i) l = seq n (length l).
Proof.
  revert n. induction l as [|x l IH]; intros n; [done|].
  cbn. rewrite Nat.add_0_r. f_equal.
  rewrite <- IH. apply imap_ext. intros i y _. cbn. lia.
Qed.

Lemma mapM_new_Chats {A B} (init : A → nat → B) (l : list A) w :
  Chats (mapM (λ x, new (init x)) l w).2 = Chats w.
Proof.
  revert w. induction l as [|x l IH]; intros w; [done|].
  cbn [mapM]. unfold bind, new at 1. fold (@new B).
  specialize (IH (set_next_oid S w)).
  by destruct (mapM _ l (set_next_oid S w)) as [[ys|e] w1].
Qed.

(** What one call of [rooms] does. *)
Lemma rooms_spec (self : t) (w : World) :
  ∃ rs w',
    rooms self w = (Ret rs, w')
    ∧ SkypeChatroom.chat <$> rs = Chats w
    ∧ Forall (λ r, SkypeChatroom._bot r = TheBackend) rs
    ∧ room_oids rs = seq (next_oid w) (length (Chats w))
    ∧ trace w' = trace w ++ [GetChats]
    ∧ Chats w' = Chats w
    ∧ next_oid w' = next_oid w + length (Chats w).
Proof.
  unfold rooms, bind, query.
  pose proof (mapM_new_Chats (λ c o, SkypeChatroom.__init__ o c TheBackend)
                (Chats w) (record GetChats w)) as Hch.
  destruct (mapM_new (λ c o, SkypeChatroom.__init__ o c TheBackend)
              (Chats w) (record GetChats w))
    as (w1 & Hrun & Ht & _ & _ & _ & Hn).
  cbv beta in Hch, Hrun. rewrite Hrun in Hch.
  change (next_oid (record GetChats w)) with (next_oid w) in *.
  eexists _, w1. split; [exact Hrun|]. split; [|split; [|split]].
  - apply list_eq. intros i. rewrite list_lookup_fmap, list_lookup_imap.
    by destruct (Chats w !! i).
  - apply Forall_lookup. intros i r. rewrite list_lookup_imap.
    destruct (Chats w !! i); cbn; [|done]. by intros [= <-].
  - rewrite <- imap_seq_oids. unfold room_oids.
    apply list_eq. intros i.
    rewrite list_lookup_fmap, !list_lookup_imap.
    by destruct (Chats w !! i).
  - done.
Qed.

(** X8: [rooms] wraps every chat of the client's list, in the order of
    the list, each in a new object: the identities within one call are
    pairwise different, and a second call in the resulting world gives
    objects for the same chats, none of which is an object of the first
    call. *)
Theorem rooms_fresh_each_time (self : t) (w : World) :
  ∃ rs w' rs' w'',
    rooms self w = (Ret rs, w')
    ∧ SkypeChatroom.chat <$> rs = Chats w
    ∧ Forall (λ r, SkypeChatroom._bot r = TheBackend) rs
    ∧ NoDup (room_oids rs)
    ∧ emitted w w' = [GetChats]
    ∧ rooms self w' = (Ret rs', w'')
    ∧ SkypeChatroom.chat <$> rs' = SkypeChatroom.chat <$> rs
    ∧ (∀ o, o ∈ room_oids rs → o ∉ room_oids rs').
Proof.
  destruct (rooms_spec self w)
    as (rs & w' & Hrun & Hch & Hbot & Hoids & Ht & Hsame & Hn).
  destruct (rooms_spec self w')
    as (rs' & w'' & Hrun' & Hch' & _ & Hoids' & _).
  exists rs, w', rs', w''. repeat split; try done.
  - rewrite Hoids. apply NoDup_seq.
  - by apply emitted_app.
  - by rewrite Hch', Hch.
  - intros o. rewrite Hoids, Hoids', Hn, Hsame.
    rewrite !elem_of_seq. lia.
Qed.

Lemma occupants_full_spec (self : SkypeChatroom.t) (w : World) :
  ∃ occs w',
    SkypeChatroomMethods.occupants self w = (Ret occs, w')
    ∧ SkypeChatroomOccupant.user <$> occs
      = chat.Members (chat_state w (SkypeChatroom._chat self))
    ∧ occupant_oids occs
      = seq (next_oid w)
          (length (chat.Members (chat_state w (SkypeChatroom._chat self))))
    ∧ Forall (λ o, SkypeUser._bot (SkypeChatroomOccupant.base o)
                   = TheObject (SkypeUser.oid (SkypeChatroomOccupant.base o)))
        occs
    ∧ trace w' = trace w ∧ chat_state w' = chat_state w
    ∧ next_oid w'
      = next_oid w
        + length (chat.Members (chat_state w (SkypeChatroom._chat self))).
Proof.
  unfold SkypeChatroomMethods.occupants, bind, gets.
  set (members := chat.Members (chat_state w (SkypeChatroom._chat self))).
  destruct (mapM_new
              (λ member o,
                 SkypeChatroomOccupant.__init__ o member self
                   (SkypeChatroom._bot self))
              members w) as (w' & Hm & Ht & Hc & _ & _ & Hn).
  eexists _, w'. split; [exact Hm|]. split; [|split; [|split]].
  - apply list_eq. intros i. rewrite list_lookup_fmap, list_lookup_imap.
    by destruct (members !! i).
  - rewrite <- imap_seq_oids. unfold occupant_oids.
    apply list_eq. intros i.
    rewrite list_lookup_fmap, !list_lookup_imap.
    by destruct (members !! i).
  - apply Forall_lookup. intros i o. rewrite list_lookup_imap.
    destruct (members !! i); cbn; [|done]. by intros [= <-].
  - done.
Qed.

(** X9: the occupants of a room are new objects at every call.  One call
    gives occupants with pairwise different identities, and each of them
    has itself, not the backend and not the room's [_bot], as its [_bot];
    a second call gives occupants for the same users, none of which is an
    object of the first call.  No call is made to the client. *)
Theorem occupants_fresh_each_time (self : SkypeChatroom.t) (w : World) :
  ∃ occs w' occs' w'',
    SkypeChatroomMethods.occupants self w = (Ret occs, w')
    ∧ NoDup (occupant_oids occs)
    ∧ Forall (λ o, SkypeUser._bot (SkypeChatroomOccupant.base o)
                   = TheObject (SkypeUser.oid (SkypeChatroomOccupant.base o)))
        occs
    ∧ emitted w w' = []
    ∧ SkypeChatroomMethods.occupants self w' = (Ret occs', w'')
    ∧ SkypeChatroomOccupant.user <$> occs'
      = SkypeChatroomOccupant.user <$> occs
    ∧ (∀ o, o ∈ occupant_oids occs → o ∉ occupant_oids occs').
Proof.
  destruct (occupants_full_spec self w)
    as (occs & w' & Hrun & Hus & Hoids & Hbot & Ht & Hst & Hn).
  destruct (occupants_full_spec self w')
    as (occs' & w'' & Hrun' & Hus' & Hoids' & _).
  exists occs, w', occs', w''. repeat split; try done.
  - rewrite Hoids. apply NoDup_seq.
  - apply emitted_app. by rewrite app_nil_r.
  - by rewrite Hus', Hus, Hst.
  - intros o. rewrite Hoids, Hoids', Hn, Hst.
    rewrite !elem_of_seq. lia.
Qed.

End listing.

(** ** Starting up *)

Section starting_up.
Import SkypeBackend.

Lemma record_all_app evs evs' w :
  record_all (evs ++ evs') w = record_all evs' (record_all evs w).
Proof. unfold record_all. apply foldl_app. Qed.

Lemma trace_record_all evs w : trace (record_all evs w) = trace w ++ evs.
Proof.
  revert w. induction evs as [|ev evs IH]; intros w; cbn.
  - by rewrite app_nil_r.
  - fold (record_all evs (record ev w)). rewrite IH.
    by rewrite trace_record, <- app_assoc.
Qed.

Lemma fault_record_all evs w : fault (record_all evs w) = fault w.
Proof.
  revert w. induction evs as [|ev evs IH]; intros w; [done|].
  cbn. fold (record_all evs (record ev w)). by rewrite IH.
Qed.

Lemma _process_contact_request_flag (self : t) (u : User) (flag : bool) w :
  bot_config self !! SKYPE_ACCEPT_CONTACT_REQUESTS = Some flag →
  _process_contact_request self u w
  = if flag then call (SetBuddyStatusPendingAuthorization u) w
    else (Ret tt, w).
Proof.
  intros Hflag. unfold _process_contact_request, get_bot_config.
  rewrite Hflag. by destruct flag.
Qed.

(** Accepting a list of requests when every call returns. *)
Lemma accept_requests (self : t) (us : list User) w :
  bot_config self !! SKYPE_ACCEPT_CONTACT_REQUESTS = Some true →
  no_fault w (accept_all us) →
  mapM (_process_contact_request self) us w
  = (Ret ((λ _, tt) <$> us), record_all (accept_all us) w).
Proof.
  intros Hflag. revert w. induction us as [|u us IH]; intros w Hok; [done|].
  unfold no_fault, accept_all in Hok. rewrite fmap_cons in Hok.
  inversion_clear Hok as [|? ? Hu Hus].
  rewrite mapM_cons, (_process_contact_request_flag self u true) by done.
  unfold call. rewrite Hu, IH by done. reflexivity.
Qed.

(** Accepting stops at the first call that raises. *)
Lemma accept_requests_stop (self : t) (l1 l2 : list User) (u : User) e w :
  bot_config self !! SKYPE_ACCEPT_CONTACT_REQUESTS = Some true →
  no_fault w (accept_all l1) →
  fault w (SetBuddyStatusPendingAuthorization u) = Some e →
  mapM (_process_contact_request self) (l1 ++ u :: l2) w
  = (Raise e,
     record (SetBuddyStatusPendingAuthorization u)
       (record_all (accept_all l1) w)).
Proof.
  intros Hflag. revert w. induction l1 as [|v l1 IH]; intros w Hok Hu.
  - cbn [app].
    rewrite mapM_cons, (_process_contact_request_flag self u true) by done.
    unfold call. by rewrite Hu.
  - unfold no_fault, accept_all in Hok. rewrite fmap_cons in Hok.
    inversion_clear Hok as [|? ? Hv Hl1]. cbn [app].
    rewrite mapM_cons, (_process_contact_request_flag self v true) by done.
    unfold call. rewrite Hv, IH by done. reflexivity.
Qed.

Lemma ignore_requests (self : t) (us : list User) w :
  bot_config self !! SKYPE_ACCEPT_CONTACT_REQUESTS = Some false →
  mapM (_process_contact_request self) us w = (Ret ((λ _, tt) <$> us), w).
Proof.
  intros Hflag. revert w. induction us as [|u us IH]; intros w; [done|].
  rewrite mapM_cons, (_process_contact_request_flag self u false) by done.
  by rewrite IH.
Qed.

(** X10: starting up when every call returns.  [serve_forever] attaches
    to the client, tells the framework it is connected, takes the client's
    current user as the bot's own identifier, and then goes through the
    waiting contact requests in their order: it accepts them all if the
    flag is set and none if it is not.  The configuration is unchanged. *)
Theorem serve_forever_starts (self : t) (flag : bool) (w : World) :
  bot_config self !! SKYPE_ACCEPT_CONTACT_REQUESTS = Some flag →
  fault w Attach = None →
  fault w connect_callback = None →
  (flag = true → no_fault w (accept_all (UsersWaitingAuthorization w))) →
  ∃ w', serve_forever_startup self w = (Ret (started self w), w')
        ∧ emitted w w'
          = Attach :: connect_callback
            :: (if flag then accept_all (UsersWaitingAuthorization w)
                else [])
        ∧ heap w' = heap w ∧ cache w' = cache w
        ∧ next_oid w' = S (next_oid w).
Proof.
  intros Hflag Hattach Hconnect Hwaiting.
  unfold serve_forever_startup. unfold bind at 1, call. rewrite Hattach.
  unfold bind at 1, call. cbn [fault record set_trace]. rewrite Hconnect.
  unfold bind at 1, gets at 1. unfold bind at 1, new at 1.
  unfold bind at 1, gets at 1. unfold bind at 1.
  cbn [UsersWaitingAuthorization set_next_oid record set_trace].
  match goal with |- context [mapM (_process_contact_request ?s) ?us ?w0] =>
    set (self' := s); set (w0' := w0) end.
  assert (bot_config self' !! SKYPE_ACCEPT_CONTACT_REQUESTS = Some flag)
    as Hflag' by done.
  destruct flag.
  - rewrite (accept_requests self' _ w0' Hflag' (Hwaiting eq_refl)).
    eexists. split; [reflexivity|]. split.
    + apply emitted_app. rewrite trace_record_all. subst w0'. cbn.
      by rewrite <- !app_assoc.
    + clear. subst w0'. generalize (accept_all (UsersWaitingAuthorization w)).
      intros evs.
      assert (∀ w1, heap (record_all evs w1) = heap w1
                    ∧ cache (record_all evs w1) = cache w1
                    ∧ next_oid (record_all evs w1) = next_oid w1) as Hframe.
      { induction evs as [|ev evs IH]; intros w1; [done|].
        cbn. fold (record_all evs (record ev w1)). by rewrite !(proj1 (IH _)),
          !(proj1 (proj2 (IH _))), !(proj2 (proj2 (IH _))). }
      cbn. by rewrite !(proj1 (Hframe _)), !(proj1 (proj2 (Hframe _))),
        !(proj2 (proj2 (Hframe _))).
  - rewrite (ignore_requests self' _ w0' Hflag').
    eexists. split; [reflexivity|]. split; [|done].
    apply emitted_app. subst w0'. cbn. by rewrite <- !app_assoc.
Qed.

(** X11: starting up when a call raises.  If attaching raises, nothing
    else is done: the framework is not told it is connected.  If accepting
    one of the waiting requests raises, the requests before it have been
    accepted and those after it are not looked at; in both cases
    [serve_forever] ends with that exception. *)
Theorem serve_forever_stops (self : t) (w : World) (e : exn) :
  (fault w Attach = Some e →
     serve_forever_startup self w = (Raise e, record Attach w))
  ∧ (∀ l1 u l2,
       bot_config self !! SKYPE_ACCEPT_CONTACT_REQUESTS = Some true →
       fault w Attach = None →
       fault w connect_callback = None →
       UsersWaitingAuthorization w = l1 ++ u :: l2 →
       no_fault w (accept_all l1) →
       fault w (SetBuddyStatusPendingAuthorization u) = Some e →
       (serve_forever_startup self w).1 = Raise e
       ∧ emitted w (serve_forever_startup self w).2
         = Attach :: connect_callback
           :: accept_all l1 ++ [SetBuddyStatusPendingAuthorization u]).
Proof.
  split.
  - intros Hattach. unfold serve_forever_startup. unfold bind at 1, call.
    by rewrite Hattach.
  - intros l1 u l2 Hflag Hattach Hconnect Hwaiting Hl1 Hu.
    assert (serve_forever_startup self w
            = (Raise e,
               record (SetBuddyStatusPendingAuthorization u)
                 (record_all (accept_all l1)
                    (set_next_oid S
                       (record connect_callback (record Attach w))))))
      as Hrun.
    { unfold serve_forever_startup. unfold bind at 1, call. rewrite Hattach.
      unfold bind at 1, call. cbn [fault record set_trace]. rewrite Hconnect.
      unfold bind at 1, gets at 1. unfold bind at 1, new at 1.
      unfold bind at 1, gets at 1. unfold bind at 1.
      cbn [UsersWaitingAuthorization set_next_oid record set_trace].
      rewrite Hwaiting.
      match goal with
      | |- context [mapM (_process_contact_request ?s) _ ?w0] =>
          set (self' := s); set (w0' := w0)
      end.
      by rewrite (accept_requests_stop self' l1 l2 u e w0' Hflag Hl1 Hu). }
    rewrite Hrun. split; [done|]. apply emitted_app. cbn [snd].
    rewrite trace_record, trace_record_all. cbn.
    by rewrite <- !app_assoc.
Qed.

End starting_up.

(** ** Rooms are views of chats *)

Section views.
Import SkypeChatroom SkypeChatroomMethods.

(** X12: a room object is a view of its chat.  A topic written through
    one room object is read through every other object that wraps the same
    chat; the topic of every other chat, and the name, members, status and
    type of every chat, are as before, so that [joined], [occupants] and
    the string form of no room change. *)
Theorem topic_is_shared (r1 r2 : t) (new_topic : string) (w : World) :
  _chat r1 = _chat r2 →
  ∃ w', topic_setter r1 new_topic w = (Ret tt, w')
        ∧ topic r2 w' = (Ret new_topic, w')
        ∧ (∀ r3, _chat r3 ≠ _chat r1 → (topic r3 w').1 = (topic r3 w).1)
        ∧ (∀ r3, (joined r3 w').1 = (joined r3 w).1
                 ∧ (__str__ r3 w').1 = (__str__ r3 w).1
                 ∧ chat.Members (chat_state w' (_chat r3))
                   = chat.Members (chat_state w (_chat r3)))
        ∧ emitted w w' = [].
Proof.
  intros Halias. eexists. split; [reflexivity|].
  split; [|split; [|split]].
  - unfold topic, gets. cbn. by rewrite <- Halias, fn_lookup_insert.
  - intros r3 Hne. unfold topic, gets. cbn.
    by rewrite fn_lookup_insert_ne.
  - intros r3. unfold joined, __str__, __unicode__, gets. cbn.
    destruct (decide (_chat r3 = _chat r1)) as [->|Hne].
    + by rewrite fn_lookup_insert.
    + by rewrite fn_lookup_insert_ne.
  - apply emitted_app. cbn. by rewrite app_nil_r.
Qed.

End views.

(** ** Replies to incoming messages *)

Section replies.
Import SkypeBackend.

(** What [build_reply] does to a message that has a sender, with the
    world it leaves. *)
Lemma build_reply_run (self : t) (mess : loc) (text : option string)
    (private : bool) (w : World) (m0 : Message) (me : Identifier) :
  heap w !! mess = Some m0 →
  is_Some (frm m0) →
  bot_identifier self = Some me →
  build_reply self mess text private w
  = (Ret mess, set_heap (insert mess (reply_to m0 me text private)) w).
Proof.
  intros Hm [sender Hfrm] Hme.
  unfold build_reply, bind, isinstance_Message, gets, getattr_Message,
    get_bot_identifier, setattr_Message_to, setattr_Message_frm,
    setattr_Message, modify.
  rewrite Hm, Hme. rewrite bool_decide_true by eauto. cbn.
  rewrite Hm, Hfrm. cbn.
  destruct private; cbn; f_equal; unfold set_heap; cbn; f_equal;
    rewrite (alter_known _ _ _ _ Hm), !alter_insert_eq;
    unfold reply_to; cbn; by rewrite Hfrm.
Qed.

(** X13: a reply goes back to the sender.  When an incoming chat message
    has been converted and a reply is built from the result, the reply is
    the converted message itself; it comes from the bot and is addressed
    to an identifier whose handle is the handle of the sender of the
    incoming message.  A private reply has type ["chat"]; any other keeps
    the type of the conversion, ["groupchat"] for a chat of more than two
    members and ["chat"] otherwise. *)
Theorem reply_goes_to_sender (self : t) (skype_msg : chatmessage.ChatMessage)
    (text : option string) (private : bool) (w : World) (me : Identifier) :
  chatmessage.isinstance_ChatMessage skype_msg = true →
  bot_identifier self = Some me →
  ∃ l w1 w2 reply,
    _make_message self skype_msg w = (Ret l, w1)
    ∧ build_reply self l text private w1 = (Ret l, w2)
    ∧ heap w2 !! l = Some reply
    ∧ frm reply = Some me
    ∧ body reply = text
    ∧ SkypeBackendSending.getattr_handle (to reply)
      = Ret (Handle (chatmessage.Sender skype_msg))
    ∧ type_ reply
      = (if private then "chat"
         else if bool_decide (2 < length (chat_members w skype_msg))
              then "groupchat" else "chat").
Proof.
  intros Hinst Hme.
  pose proof (_make_message_unfold self skype_msg w) as Hmk.
  cbv zeta in Hmk. rewrite Hinst, Hme in Hmk.
  destruct (bool_decide (2 < length (chat_members w skype_msg))).
  - eexists _, _, _, _. split; [exact Hmk|]. split.
    { apply (build_reply_run _ _ _ _ _ (groupchat_message w skype_msg) me);
        [cbn; apply lookup_insert_eq|by eexists|done]. }
    split; [cbn; apply lookup_insert_eq|]. by destruct private.
  - eexists _, _, _, _. split; [exact Hmk|]. split.
    { apply (build_reply_run _ _ _ _ _ (chat_message w skype_msg me) me);
        [cbn; apply lookup_insert_eq|by eexists|done]. }
    split; [cbn; apply lookup_insert_eq|]. by destruct private.
Qed.

End replies.

Section more_replies.
Import SkypeBackend.

(** X14: replying twice to one message.  [build_reply] changes the
    message it is given, so a second reply built from the same message
    finds the bot as its sender: a message that had a sender ends up
    addressed to the bot itself, whoever sent it first. *)
Theorem second_reply_addresses_the_bot (self : t) (mess : loc)
    (text1 text2 : option string) (private1 private2 : bool) (w : World)
    (m0 : Message) (sender me : Identifier) :
  heap w !! mess = Some m0 →
  frm m0 = Some sender →
  bot_identifier self = Some me →
  ∃ w1 w2 first second,
    build_reply self mess text1 private1 w = (Ret mess, w1)
    ∧ heap w1 !! mess = Some first
    ∧ to first = Some sender ∧ frm first = Some me
    ∧ build_reply self mess text2 private2 w1 = (Ret mess, w2)
    ∧ heap w2 !! mess = Some second
    ∧ to second = Some me ∧ frm second = Some me ∧ body second = text2.
Proof.
  intros Hm Hfrm Hme. eexists _, _, _, _.
  split; [by apply (build_reply_run _ _ _ _ _ m0 me)|].
  split; [cbn; apply lookup_insert_eq|].
  split; [exact Hfrm|]. split; [done|].
  split.
  - apply (build_reply_run _ _ _ _ _ (reply_to m0 me text1 private1) me);
      [cbn; apply lookup_insert_eq|by eexists|done].
  - split; [cbn; apply lookup_insert_eq|done].
Qed.

(** X15: [build_reply] on something that is not a message.  The
    assertion fails before anything is touched: [AssertionError] is
    raised and the world is as it was. *)
Theorem build_reply_rejects_other_objects (self : t) (mess : loc)
    (text : option string) (private : bool) (w : World) :
  heap w !! mess = None →
  build_reply self mess text private w = (Raise AssertionError, w).
Proof.
  intros Hm. unfold build_reply, bind, isinstance_Message, gets.
  rewrite Hm. rewrite bool_decide_false by (by intros [m ?]). reflexivity.
Qed.

(** X16: a converted message is a new object.  The message that
    [_make_message] returns is at an address that held no message before,
    and every message that was on the heap is still there, unchanged;
    converting two messages in a row gives two different objects. *)
Theorem _make_message_is_fresh (self : t)
    (skype_msg skype_msg' : chatmessage.ChatMessage) (w w1 : World)
    (l : loc) :
  _make_message self skype_msg w = (Ret l, w1) →
  heap w !! l = None
  ∧ is_Some (heap w1 !! l)
  ∧ (∀ l0 m, heap w !! l0 = Some m → heap w1 !! l0 = Some m)
  ∧ (∀ l' w2, _make_message self skype_msg' w1 = (Ret l', w2) → l' ≠ l).
Proof.
  assert (∀ sm w0 l0 w0',
            _make_message self sm w0 = (Ret l0, w0') →
            l0 = fresh (dom (heap w0))
            ∧ ∃ m, heap w0' = <[l0 := m]> (heap w0)) as Hnew.
  { intros sm w0 l0 w0'. rewrite _make_message_unfold. cbv zeta.
    destruct (chatmessage.isinstance_ChatMessage sm); [|done].
    case_bool_decide.
    - intros [= <- <-]. split; [done|]. by eexists.
    - destruct (bot_identifier self); [|done].
      intros [= <- <-]. split; [done|]. by eexists. }
  intros Hrun. destruct (Hnew _ _ _ _ Hrun) as (-> & m & Hheap).
  assert (heap w !! fresh (dom (heap w)) = None) as Hfree.
  { apply not_elem_of_dom. apply is_fresh. }
  split; [done|]. split; [|split].
  - rewrite Hheap, lookup_insert_eq. by eexists.
  - intros l0 m0 Hl0. rewrite Hheap, lookup_insert_ne; [done|].
    intros <-. by rewrite Hfree in Hl0.
  - intros l' w2 Hrun'. destruct (Hnew _ _ _ _ Hrun') as (-> & _).
    intros Heq.
    assert (fresh (dom (heap w)) ∈ dom (heap w1)) as Hin.
    { rewrite Hheap. apply elem_of_dom. rewrite lookup_insert_eq.
      by eexists. }
    rewrite <- Heq in Hin. by apply is_fresh in Hin.
Qed.

(** X17: the memo table is per backend object.  What one backend has
    looked up does not serve another: the first lookup of the same text
    by a backend with a different identity reads the buddy list again. *)
Theorem build_identifier_memo_is_per_backend (self other : t)
    (text : string) (w w1 : World) (r : Identifier) :
  id_ other ≠ id_ self →
  cache w !! (__hash__ other, text) = None →
  build_identifier self text w = (Ret r, w1) →
  cache w1 !! (__hash__ self, text) = Some r
  ∧ cache w1 !! (__hash__ other, text) = None
  ∧ ∃ evs, emitted w1 (build_identifier other text w1).2 = GetFriends :: evs.
Proof.
  intros Hid Hother Hrun.
  assert (cache w1 !! (__hash__ other, text) = None) as Hmiss.
  { revert Hrun. unfold build_identifier. cbv zeta.
    destruct (cache w !! (__hash__ self, text)); [by intros [= _ <-]|].
    pose proof (build_identifier_uncached_cache self text w) as Hc.
    destruct (build_identifier_uncached self text w) as [[r0|e] w0];
      [|done].
    intros [= _ <-]. cbn in *. rewrite lookup_insert_ne, Hc; [done|].
    unfold __hash__. by intros [= ?]. }
  split; [by eapply build_identifier_stores|]. split; [done|].
  rewrite build_identifier_miss, build_identifier_uncached_unfold by done.
  cbv zeta.
  destruct (filter _ (Friends w1)) as [|f [|f' l]].
  2:{ eexists. solve_emitted. }
  all: destruct (filter _ (Chats w1)) as [|c [|c' k]].
  all: try (eexists; solve_emitted).
  all: destruct (fault w1 (SearchForUsers text)).
  all: try (eexists; solve_emitted).
  all: destruct (filter _ (directory w1 text)) as [|u [|u' m]].
  all: eexists; solve_emitted.
Qed.

End more_replies.

(** ** Sending *)

Section sending.
Import SkypeBackend SkypeBackendSending.

Variable convert : option string → outcome string.

Lemma send_spec (c : sending) (s : Wire) :
  send c s = (match send_fault s c with
              | None => Ret tt
              | Some e => Raise e
              end, posted c s).
Proof. unfold send. by destruct (send_fault s c). Qed.

Lemma lift_getattr {A} (mess : loc) (attr : string) (field : Message → A)
    (s : Wire) (m : Message) :
  heap (world s) !! mess = Some m →
  lift (getattr_Message mess attr field) s = (Ret (field m), s).
Proof.
  intros Hm. unfold lift, getattr_Message. rewrite Hm. by destruct s.
Qed.

(** [send_message] once the framework's part has returned and the body
    is rendered: where the message goes is decided by its type and its
    addressee. *)
Lemma send_message_unfold (self : t) (mess : loc) (s : Wire)
    (m : Message) (b : string) :
  heap (world s) !! mess = Some m →
  send_fault s (super_send_message mess) = None →
  convert (body m) = Ret b →
  send_message convert self mess s
  = let s1 := posted (super_send_message mess) s in
    if decide (type_ m = "chat") then
      match getattr_handle (to m) with
      | Ret h => send (skype_SendMessage h b) s1
      | Raise e => (Raise e, s1)
      end
    else if hasattr_room (to m) then
      match getattr_room_chat (to m) with
      | Ret c => send (chat_SendMessage c b) s1
      | Raise e => (Raise e, s1)
      end
    else
      match getattr_chat (to m) with
      | Ret c => send (chat_SendMessage c b) s1
      | Raise e => (Raise e, s1)
      end.
Proof.
  intros Hm Hsuper Hb. cbv zeta.
  assert (heap (world (posted (super_send_message mess) s)) !! mess = Some m)
    as Hm1 by done.
  unfold send_message. unfold bind_S at 1. rewrite send_spec, Hsuper.
  unfold bind_S at 1. rewrite (lift_getattr _ _ _ _ m Hm1).
  unfold bind_S at 1, of_outcome at 1. rewrite Hb.
  unfold bind_S at 1. rewrite (lift_getattr _ _ _ _ m Hm1).
  case_decide.
  - unfold bind_S at 1. rewrite (lift_getattr _ _ _ _ m Hm1).
    unfold bind_S, of_outcome. by destruct (getattr_handle (to m)).
  - unfold bind_S at 1. rewrite (lift_getattr _ _ _ _ m Hm1).
    destruct (hasattr_room (to m)); unfold bind_S, of_outcome.
    + by destruct (getattr_room_chat (to m)).
    + by destruct (getattr_chat (to m)).
Qed.

(** X18: a message of type ["chat"] goes to a handle.  When the
    framework's [send_message] and the rendering of the body return, a
    ["chat"] message addressed to a user or to an occupant is sent with
    one call of the client's [SendMessage], to the addressee's handle and
    with the rendered body; the world is not touched. *)
Theorem send_message_chat_to_handle (self : t) (mess : loc) (s : Wire)
    (m : Message) (b h : string) :
  heap (world s) !! mess = Some m →
  send_fault s (super_send_message mess) = None →
  convert (body m) = Ret b →
  type_ m = "chat" →
  getattr_handle (to m) = Ret h →
  send_message convert self mess s
  = (match send_fault s (skype_SendMessage h b) with
     | None => Ret tt
     | Some e => Raise e
     end,
     posted (skype_SendMessage h b) (posted (super_send_message mess) s)).
Proof.
  intros Hm Hsuper Hb Hty Hh.
  rewrite (send_message_unfold self mess s m b) by done. cbv zeta.
  rewrite decide_True, Hh by done. by rewrite send_spec.
Qed.



(** X21: what [send_message] never does.  Whatever the message, the
    converter and the calls that raise, [send_message] leaves the world as
    it is, the message included; it calls the framework's [send_message]
    first, and after it makes at most one [SendMessage] call. *)
Theorem send_message_at_most_once (self : t) (mess : loc) (s : Wire) :
  let s' := (send_message convert self mess s).2 in
  world s' = world s
  ∧ send_fault s' = send_fault s
  ∧ ∃ rest, outbox s' = outbox s ++ super_send_message mess :: rest
            ∧ (rest = [] ∨ ∃ c, rest = [c] ∧ is_SendMessage c).
Proof.
  cbv zeta.
  set (Q := λ r : outcome unit * Wire,
         world r.2 = world s
         ∧ send_fault r.2 = send_fault s
         ∧ ∃ rest, outbox r.2 = outbox s ++ super_send_message mess :: rest
                   ∧ (rest = [] ∨ ∃ c, rest = [c] ∧ is_SendMessage c)).
  change (Q (send_message convert self mess s)).
  set (s1 := posted (super_send_message mess) s).
  assert (∀ o, Q (o, s1)) as Hstop.
  { intros o. split; [done|]. split; [done|]. exists [].
    split; [done|by left]. }
  assert (∀ c, is_SendMessage c → Q (send c s1)) as Hsend.
  { intros c Hc. rewrite send_spec. split; [done|]. split; [done|].
    exists [c]. split; [cbn; by rewrite <- app_assoc|]. right. by exists c. }
  assert (∀ A attr (field : Message → A),
            lift (getattr_Message mess attr field) s1
            = (match heap (world s) !! mess with
               | Some m => Ret (field m)
               | None => Raise (AttributeError attr)
               end, s1)) as Hget.
  { intros A attr field. unfold lift, getattr_Message. cbn.
    by destruct (heap (world s) !! mess). }
  unfold send_message. unfold bind_S at 1. rewrite send_spec. fold s1.
  destruct (send_fault s (super_send_message mess)); [apply Hstop|].
  unfold bind_S at 1. rewrite Hget.
  destruct (heap (world s) !! mess) as [m|]; [|apply Hstop].
  unfold bind_S at 1, of_outcome at 1.
  destruct (convert (body m)) as [b|e]; [|apply Hstop].
  unfold bind_S at 1. rewrite Hget.
  case_decide.
  - unfold bind_S at 1. rewrite Hget. unfold bind_S, of_outcome.
    destruct (getattr_handle (to m)); [by apply Hsend|apply Hstop].
  - unfold bind_S at 1. rewrite Hget.
    destruct (hasattr_room (to m)); unfold bind_S, of_outcome.
    + destruct (getattr_room_chat (to m)); [by apply Hsend|apply Hstop].
    + destruct (getattr_chat (to m)); [by apply Hsend|apply Hstop].
Qed.

(** X22: where a reply ends up.  An incoming chat message is converted,
    a reply is built from it and sent; when every outgoing call returns,
    the reply to a message from a chat of more than two members goes to
    that chat, unless it is private; a private reply, and any reply to a
    message from a smaller chat, goes to the handle of the sender. *)
Theorem reply_is_routed (self : t) (skype_msg : chatmessage.ChatMessage)
    (text : option string) (private : bool) (w : World) (me : Identifier)
    (b : string) (out : list sending) :
  chatmessage.isinstance_ChatMessage skype_msg = true →
  bot_identifier self = Some me →
  convert text = Ret b →
  ∃ l w1 w2,
    _make_message self skype_msg w = (Ret l, w1)
    ∧ build_reply self l text private w1 = (Ret l, w2)
    ∧ send_message convert self l (wire w2 out)
      = (Ret tt,
         wire w2
           (out ++ [super_send_message l;
                    if negb private
                       && bool_decide (2 < length (chat_members w skype_msg))
                    then chat_SendMessage (chatmessage.Chat skype_msg) b
                    else skype_SendMessage
                           (Handle (chatmessage.Sender skype_msg)) b])).
Proof.
  intros Hinst Hme Hb.
  pose proof (_make_message_unfold self skype_msg w) as Hmk.
  cbv zeta in Hmk. rewrite Hinst, Hme in Hmk.
  destruct (bool_decide (2 < length (chat_members w skype_msg))).
  - eexists _, _, _. split; [exact Hmk|]. split.
    { apply (build_reply_run _ _ _ _ _ (groupchat_message w skype_msg) me);
        [cbn; apply lookup_insert_eq|by eexists|done]. }
    rewrite (send_message_unfold self _ _
               (reply_to (groupchat_message w skype_msg) me text private) b);
      [|cbn; apply lookup_insert_eq|done|done].
    cbv zeta. destruct private; cbn;
      [rewrite decide_True by done|rewrite decide_False by done];
      unfold wire, posted; cbn; by rewrite <- app_assoc.
  - eexists _, _, _. split; [exact Hmk|]. split.
    { apply (build_reply_run _ _ _ _ _ (chat_message w skype_msg me) me);
        [cbn; apply lookup_insert_eq|by eexists|done]. }
    rewrite (send_message_unfold self _ _
               (reply_to (chat_message w skype_msg me) me text private) b);
      [|cbn; apply lookup_insert_eq|done|done].
    cbv zeta. destruct private; cbn; rewrite decide_True by done;
      unfold wire, posted; cbn; by rewrite <- app_assoc.
Qed.

End sending.

(** * More of the adapter at work on the small client *)

Section more_scenario_checks.
Import SkypeBackend.

Lemma calm_is_sound : cache_sound calm.
Proof. intros k text r Hr. cbn in Hr. by rewrite lookup_empty in Hr. Qed.

Lemma no_friend_on_scenario (text : string) :
  filter (λ f, Handle f = text) (Friends calm) = [] →
  ¬ ∃ f, only_friend calm text f.
Proof.
  intros Hnone [f Hf]. apply only_friend_filter in Hf.
  by rewrite Hnone in Hf.
Qed.

Lemma no_chat_on_scenario (text : string) :
  filter (λ c, chat.Name (chat_state calm c) = text) (Chats calm) = [] →
  ¬ ∃ c, only_chat_named calm text c.
Proof.
  intros Hnone [c Hc]. apply only_chat_named_filter in Hc.
  by rewrite Hnone in Hc.
Qed.

(** [alice] is a friend: the buddy list answers. *)
Lemma friend_lookup_on_scenario :
  ∃ w', build_identifier the_bot "alice" calm = (Ret alice_identifier, w')
        ∧ emitted calm w' = [GetFriends]
        ∧ cache w' = <[(100, "alice") := alice_identifier]> (cache calm).
Proof.
  apply (build_identifier_prefers_friend the_bot "alice" calm alice).
  - reflexivity.
  - exists [], [bob]. split; [reflexivity|]. split; [reflexivity|].
    repeat constructor. discriminate.
Defined.

(** [team] is no friend but the name of one chat. *)
Lemma room_lookup_on_scenario :
  ∃ w', build_identifier the_bot "team" calm
        = (Ret (IdRoom (SkypeChatroom.__init__ 1 2 TheBackend)), w')
        ∧ emitted calm w' = [GetFriends; GetChats]
        ∧ cache w'
          = <[(100, "team") := IdRoom (SkypeChatroom.__init__ 1 2 TheBackend)]>
              (cache calm).
Proof.
  apply (build_identifier_then_room the_bot "team" calm 2).
  - reflexivity.
  - by apply no_friend_on_scenario.
  - exists [1], []. split; [reflexivity|]. split; [reflexivity|].
    repeat constructor. discriminate.
Defined.

(** [carol] is found in the directory only. *)
Lemma directory_lookup_on_scenario :
  ∃ w', build_identifier the_bot "carol" calm
        = (Ret (IdUser (SkypeUser.__init__ 1 carol TheBackend)), w')
        ∧ emitted calm w' = [GetFriends; GetChats; SearchForUsers "carol"]
        ∧ cache w'
          = <[(100, "carol") := IdUser (SkypeUser.__init__ 1 carol TheBackend)]>
              (cache calm).
Proof.
  apply (build_identifier_then_directory the_bot "carol" calm carol).
  - reflexivity.
  - by apply no_friend_on_scenario.
  - by apply no_chat_on_scenario.
  - reflexivity.
  - exists [], []. split; [reflexivity|]. split; [reflexivity|]. constructor.
Defined.

(** Nobody answers to [dave]. *)
Lemma failed_lookup_on_scenario :
  cache (build_identifier the_bot "dave" calm).2 = cache calm
  ∧ emitted calm (build_identifier the_bot "dave" calm).2
    = [GetFriends; GetChats; SearchForUsers "dave"].
Proof.
  destruct (build_identifier_failure the_bot "dave" calm
              (build_identifier the_bot "dave" calm).2 no_identifier eq_refl)
    as (_ & Hcache & _ & Hemitted).
  split; [exact Hcache | exact Hemitted].
Defined.

Lemma reads_back_on_scenario :
  (SkypeChatroomMethods.str (IdRoom (SkypeChatroom.__init__ 1 2 TheBackend))
     (build_identifier the_bot "team" calm).2).1
  = Ret "team".
Proof.
  apply (build_identifier_reads_back the_bot "team" calm
           (build_identifier the_bot "team" calm).2).
  - exact calm_is_sound.
  - reflexivity.
Defined.

Lemma sound_after_requests_on_scenario :
  cache_sound
    (serve_all the_bot
       [ask_build_identifier "team";
        on_room (SkypeChatroom.__init__ 8 2 TheBackend)
          (SkypeChatroomMethods.set_topic "retro");
        on_message (said "RECEIVED" 2) "RECEIVED";
        ask_build_identifier "alice"]
       calm).
Proof. apply cache_sound_invariant. exact calm_is_sound. Defined.

(** Both guests are found and added; a stranger among the guests and
    nobody is added. *)
Lemma invite_on_scenario_all :
  let room := SkypeChatroom.__init__ 8 2 TheBackend in
  emitted calm
    (SkypeChatroomMethods.invite the_bot room ["alice"; "carol"] calm).2
  = emitted calm
      (mapM (build_identifier the_bot) ["alice"; "carol"] calm).2
    ++ [AddMembers 2 ["alice"; "carol"]]
  ∧ (SkypeChatroomMethods.invite the_bot room ["alice"; "dave"] calm).1
    = Raise no_identifier
  ∧ AddMembers 2 ["alice"; "dave"]
    ∉ emitted calm
        (SkypeChatroomMethods.invite the_bot room ["alice"; "dave"] calm).2.
Proof.
  cbv zeta. split.
  - destruct (invite_all_or_nothing the_bot
                (SkypeChatroom.__init__ 8 2 TheBackend) ["alice"; "carol"]
                calm calm_is_sound) as (_ & _ & Hadded & _).
    eapply Hadded. reflexivity.
  - destruct (invite_all_or_nothing the_bot
                (SkypeChatroom.__init__ 8 2 TheBackend) ["alice"; "dave"]
                calm calm_is_sound) as (_ & _ & _ & Hfailed).
    destruct (Hfailed no_identifier eq_refl) as [Hraise Hnone].
    split; [exact Hraise | apply Hnone].
Defined.

(** An invitation that names a stranger adds nobody. *)
Example invite_stranger_on_scenario :
  SkypeChatroomMethods.invite the_bot
    (SkypeChatroom.__init__ 8 2 TheBackend) ["alice"; "dave"] calm
  = (Raise no_identifier,
     (SkypeChatroomMethods.invite the_bot
        (SkypeChatroom.__init__ 8 2 TheBackend) ["alice"; "dave"] calm).2)
  ∧ trace (SkypeChatroomMethods.invite the_bot
             (SkypeChatroom.__init__ 8 2 TheBackend) ["alice"; "dave"]
             calm).2
    = [GetFriends; GetFriends; GetChats; SearchForUsers "dave"].
Proof. split; reflexivity. Qed.

Lemma startup_on_scenario :
  ∃ w', serve_forever_startup the_bot calm = (Ret (started the_bot calm), w')
        ∧ emitted calm w'
          = [Attach; connect_callback;
             SetBuddyStatusPendingAuthorization carol]
        ∧ heap w' = heap calm ∧ cache w' = cache calm
        ∧ next_oid w' = S (next_oid calm).
Proof.
  apply (serve_forever_starts the_bot true calm).
  - reflexivity.
  - reflexivity.
  - reflexivity.
  - intros _. repeat constructor.
Defined.

Lemma startup_stops_on_scenario :
  serve_forever_startup the_bot
    (scenario [] [] (λ ev, match ev with
                           | Attach => Some SkypeError
                           | _ => None
                           end))
  = (Raise SkypeError,
     record Attach
       (scenario [] [] (λ ev, match ev with
                              | Attach => Some SkypeError
                              | _ => None
                              end))).
Proof.
  apply (serve_forever_stops the_bot
           (scenario [] [] (λ ev, match ev with
                                  | Attach => Some SkypeError
                                  | _ => None
                                  end)) SkypeError).
  reflexivity.
Defined.

Lemma topic_shared_on_scenario :
  ∃ w', SkypeChatroomMethods.topic_setter
          (SkypeChatroom.__init__ 8 2 TheBackend) "retro" calm
        = (Ret tt, w')
        ∧ SkypeChatroomMethods.topic
            (SkypeChatroom.__init__ 9 2 TheBackend) w'
          = (Ret "retro", w').
Proof.
  destruct (topic_is_shared (SkypeChatroom.__init__ 8 2 TheBackend)
              (SkypeChatroom.__init__ 9 2 TheBackend) "retro" calm eq_refl)
    as (w' & Hset & Hget & _).
  exists w'. split; [exact Hset | exact Hget].
Defined.

Lemma reply_to_sender_on_scenario :
  ∃ l w1 w2 reply,
    _make_message the_bot (said "RECEIVED" 2) calm = (Ret l, w1)
    ∧ build_reply the_bot l (Some "pong") true w1 = (Ret l, w2)
    ∧ heap w2 !! l = Some reply
    ∧ SkypeBackendSending.getattr_handle (to reply) = Ret "alice"
    ∧ type_ reply = "chat".
Proof.
  destruct (reply_goes_to_sender the_bot (said "RECEIVED" 2) (Some "pong")
              true calm me eq_refl eq_refl)
    as (l & w1 & w2 & reply & Hmk & Hrun & Hheap & _ & _ & Hto & Hty).
  exists l, w1, w2, reply. repeat split; assumption.
Defined.

Lemma second_reply_on_scenario :
  ∃ w1 w2 first second,
    build_reply the_bot 3 (Some "one") false with_waiting_message
    = (Ret 3, w1)
    ∧ heap w1 !! 3 = Some first
    ∧ to first = Some (IdUser (SkypeUser.__init__ 9 bob TheBackend))
    ∧ frm first = Some me
    ∧ build_reply the_bot 3 (Some "two") false w1 = (Ret 3, w2)
    ∧ heap w2 !! 3 = Some second
    ∧ to second = Some me ∧ frm second = Some me
    ∧ body second = Some "two".
Proof.
  apply (second_reply_addresses_the_bot the_bot 3 (Some "one") (Some "two")
           false false with_waiting_message waiting_message
           (IdUser (SkypeUser.__init__ 9 bob TheBackend)) me);
    reflexivity.
Defined.

Lemma build_reply_rejects_on_scenario :
  build_reply the_bot 3 (Some "pong") false calm = (Raise AssertionError, calm).
Proof.
  apply (build_reply_rejects_other_objects the_bot 3 (Some "pong") false calm).
  reflexivity.
Defined.

Lemma fresh_message_on_scenario :
  heap with_waiting_message !! 4 = None
  ∧ heap (_make_message the_bot (said "RECEIVED" 2) with_waiting_message).2
      !! 3 = Some waiting_message.
Proof.
  destruct (_make_message_is_fresh the_bot (said "RECEIVED" 2)
              (said "RECEIVED" 2) with_waiting_message
              (_make_message the_bot (said "RECEIVED" 2)
                 with_waiting_message).2 4)
    as (Hnew & _ & Hkept & _).
  - vm_compute. reflexivity.
  - split; [exact Hnew|]. apply Hkept. reflexivity.
Defined.

Lemma memo_per_backend_on_scenario :
  ∃ evs, emitted looked_up (build_identifier another_bot "alice" looked_up).2
         = GetFriends :: evs.
Proof.
  apply (build_identifier_memo_is_per_backend the_bot another_bot "alice"
           calm looked_up alice_identifier).
  - discriminate.
  - reflexivity.
  - reflexivity.
Defined.

End more_scenario_checks.

Section sending_checks.
Import SkypeBackend SkypeBackendSending.

Lemma send_chat_on_scenario :
  send_message plain the_bot 3 (wire (holding note_to_bob) [])
  = (Ret tt,
     posted (skype_SendMessage "bob" "hello")
       (posted (super_send_message 3) (wire (holding note_to_bob) []))).
Proof.
  apply (send_message_chat_to_handle plain the_bot 3
           (wire (holding note_to_bob) []) note_to_bob "hello" "bob");
    reflexivity.
Defined.



Lemma reply_routed_on_scenario :
  ∃ l w1 w2,
    _make_message the_bot (said "RECEIVED" 2) calm = (Ret l, w1)
    ∧ build_reply the_bot l (Some "pong") false w1 = (Ret l, w2)
    ∧ send_message plain the_bot l (wire w2 [])
      = (Ret tt, wire w2 [super_send_message l; chat_SendMessage 2 "pong"]).
Proof.
  apply (reply_is_routed plain the_bot (said "RECEIVED" 2) (Some "pong")
           false calm me "pong" []); reflexivity.
Defined.

End sending_checks.
